(** * User-analytics metrics: a shallow embedding of [active_user.py]

    The metric functions of [active_user.py] are written against a
    [pandas] DataFrame with the columns [user_id] and [date].  This file
    embeds them as list programs over the rows of that frame and proves
    the properties of the metrics computation pipeline.

    Conventions of the embedding:
    - a [user_id] is an integer ([Z]);
    - a [date] is a pandas [Timestamp] at midnight, i.e. the number of days
      since 1970-01-01 ([load_data] parses ['%Y%m%d'], so no time of day
      ever occurs); [timedelta(days=n)] is the integer [n];
    - a [Period] is its pandas ordinal; [p + 1] and [(p - q).n] are
      integer arithmetic on ordinals;
    - [int / int] (Python true division) is the exact rational, kept in
      lowest terms; a float that pandas leaves missing is [nan];
    - functions that assign columns of the frame they are given
      ([data['Month'] = ...]) return the frame they leave behind. *)

From Stdlib Require Import ZArith QArith Qround Lia.
From Stdlib Require Qcanon.
From Stdlib Require Import Lqa.
From stdpp Require Import base decidable option list sorting gmap strings.

Local Open Scope Z_scope.

(** ** The proleptic Gregorian calendar behind [dt.to_period] *)

Module Calendar.

(** Day number of the civil date [y]-[m]-[d]. *)
Definition days_from_civil (y m d : Z) : Z :=
  let y' := if m <=? 2 then y - 1 else y in
  let era := y' / 400 in
  let yoe := y' - era * 400 in
  let mp := if 2 <? m then m - 3 else m + 9 in
  let doy := (153 * mp + 2) / 5 + d - 1 in
  let doe := yoe * 365 + yoe / 4 - yoe / 100 + doy in
  era * 146097 + doe - 719468.

(** Year of the 400-year era (years start on 1 March). *)
Definition yoe_of (doe : Z) : Z :=
  (doe - doe / 1460 + doe / 36524 - doe / 146096) / 365.

(** Day of the March-based year. *)
Definition doy_of (doe : Z) : Z :=
  let yoe := yoe_of doe in doe - (365 * yoe + yoe / 4 - yoe / 100).

(** March-based month, 0 = March ... 11 = February. *)
Definition mp_of (doy : Z) : Z := (5 * doy + 2) / 153.

(** Month within the era, counted from March of its first year. *)
Definition moe_of (doe : Z) : Z := 12 * yoe_of doe + mp_of (doy_of doe).

(** Civil date (year, month, day) of a day number. *)
Definition civil_from_days (z : Z) : Z * Z * Z :=
  let z' := z + 719468 in
  let era := z' / 146097 in
  let doe := z' mod 146097 in
  let yoe := yoe_of doe in
  let doy := doy_of doe in
  let mp := mp_of doy in
  let d := doy - (153 * mp + 2) / 5 + 1 in
  let m := if mp <? 10 then mp + 3 else mp - 9 in
  let y := yoe + era * 400 in
  (if m <=? 2 then y + 1 else y, m, d).

Definition year (z : Z) : Z := fst (fst (civil_from_days z)).
Definition month (z : Z) : Z := snd (fst (civil_from_days z)).
Definition day (z : Z) : Z := snd (civil_from_days z).

End Calendar.

(** [pd.to_datetime(..., format='%Y%m%d')] of the digits [y m d]. *)
Definition Timestamp (y m d : Z) : Z := Calendar.days_from_civil y m d.

(** ** Periods: [dt.to_period(freq)] and [PeriodIndex.to_timestamp()] *)

Inductive freq := D | W | M.

(** Ordinal of the period of frequency [f] that contains day [d].
    ['W'] is pandas' [W-SUN]: weeks run from Monday to Sunday. *)
Definition to_period (f : freq) (d : Z) : Z :=
  match f with
  | D => d
  | W => (d + 3) / 7 + 1
  | M => (Calendar.year d - 1970) * 12 + (Calendar.month d - 1)
  end.

(** Start day of the period with ordinal [p]. *)
Definition to_timestamp (f : freq) (p : Z) : Z :=
  match f with
  | D => p
  | W => 7 * p - 10
  | M => Calendar.days_from_civil (1970 + p / 12) (p mod 12 + 1) 1
  end.

(** ** Exceptions and floats *)

Inductive exn := KeyError | IndexError | AttributeError | ZeroDivisionError.

Inductive result (A : Type) : Type :=
  | Ok (a : A)
  | Raise (e : exn).
Arguments Ok {A} a.
Arguments Raise {A} e.

#[global] Instance result_ret : MRet result := fun A a => Ok a.

#[global] Instance result_bind : MBind result := fun A B k r =>
  match r with
  | Ok a => k a
  | Raise e => Raise e
  end.

(** A float: a rational in lowest terms, or NaN. *)
Inductive float := nan | fin (q : Q).

(** Python [a / b] on two [len(...)] results. *)
Definition truediv (a b : nat) : result float :=
  match b with
  | O => Raise ZeroDivisionError
  | S _ => Ok (fin (Qred (Z.of_nat a # Pos.of_nat b)))
  end.

(** Round half to even, as [numpy.rint]. *)
Definition rint (q : Q) : Z :=
  let n := Qfloor q in
  match Qcompare (q - inject_Z n) (1 # 2) with
  | Lt => n
  | Gt => n + 1
  | Eq => if Z.even n then n else n + 1
  end.

(** [x.round(3)] *)
Definition round3 (x : float) : float :=
  match x with
  | nan => nan
  | fin q => fin (Qred (rint (q * 1000) # 1000))
  end.

(** float / float, NaN-propagating; [x / 0.0] does not occur for counts
    but numpy gives inf or NaN there, rendered as [nan]. *)
Definition fdiv (x y : float) : float :=
  match x, y with
  | fin a, fin b => if Qeq_bool b 0 then nan else fin (Qred (a / b))
  | _, _ => nan
  end.

(** [Series.mean()] of integer values; NaN on an empty series. *)
Definition series_mean (l : list Z) : float :=
  match l with
  | [] => nan
  | _ :: _ => fin (Qred (foldr Z.add 0 l # Pos.of_nat (length l)))
  end.

(** ** DataFrame and the pandas operations the source uses *)

(** The frame read by [load_data]: one row per event, columns [user_id]
    and [date]; [Month], [Cohort] and [CohortPeriod] are the columns that
    the metric functions assign on the frame they are given. *)
Record DataFrame := {
  rows : list (Z * Z);
  Month : option (list Z);
  Cohort : option (list Z);
  CohortPeriod : option (list Z)
}.

Definition user_id (r : Z * Z) : Z := r.1.
Definition date (r : Z * Z) : Z := r.2.

(** The frame as [load_data] returns it. *)
Definition load_data (events : list (Z * Z)) : DataFrame :=
  {| rows := events; Month := None; Cohort := None; CohortPeriod := None |}.

(** [drop_duplicates(subset=key)]: the first row of every key, in order
    of appearance. *)
Fixpoint drop_duplicates {V K} `{EqDecision K} (key : V -> K) (l : list V) : list V :=
  match l with
  | [] => []
  | x :: l' => x :: filter (fun y => key y <> key x) (drop_duplicates key l')
  end.

(** [groupby(key)]: the groups in ascending order of key (order [R]),
    each with its rows in their original order. *)
Definition groupby {V K} `{EqDecision K} (R : relation K)
    `{forall x y, Decision (R x y)}
    (key : V -> K) (l : list V) : list (K * list V) :=
  fmap (fun k => (k, filter (fun r => key r = k) l))
      (merge_sort R (drop_duplicates id (fmap key l))).

(** [Series.unique()] and [Series.nunique()] *)
Definition unique (l : list Z) : list Z := drop_duplicates id l.
Definition nunique (l : list Z) : nat := length (unique l).

(** [Series.min()] of a non-empty group *)
Definition series_min (l : list Z) : Z :=
  match l with
  | [] => 0
  | x :: l' => foldr Z.min x l'
  end.

(** Ascending order on [(Cohort, CohortPeriod)] keys *)
Definition lex_le (a b : Z * Z) : Prop :=
  a.1 < b.1 \/ (a.1 = b.1 /\ a.2 <= b.2).

#[global] Instance lex_le_dec : RelDecision lex_le.
Proof. intros a b. unfold lex_le. apply _. Defined.

(** [pd.merge(left, right, on='user_id')]: inner join, in the order of
    the left rows. *)
Definition merge (left right : list (Z * Z)) : list (Z * Z * Z) :=
  l ← left;
  r ← right;
  if decide (user_id l = user_id r) then [(user_id l, date l, date r)] else [].

(** [series[key]] on a series given as its (label, value) pairs *)
Definition series_getitem {V} (s : list (Z * V)) (key : Z) : result V :=
  match list_find (fun kv => kv.1 = key) s with
  | Some (_, kv) => Ok kv.2
  | None => Raise KeyError
  end.

(** Order of two series entries by label *)
Definition label_le {V} (a b : Z * V) : Prop := a.1 <= b.1.

#[global] Instance label_le_dec {V} : RelDecision (@label_le V).
Proof. intros a b. unfold label_le. apply _. Defined.

(** [series.sort_index()] *)
Definition sort_index {V} (s : list (Z * V)) : list (Z * V) :=
  merge_sort label_le s.

(** [pd.Series(d).index.to_timestamp()] for a dict [d] keyed by monthly
    periods.  The keys of a non-empty dict become a [PeriodIndex]; an
    empty dict gives a plain empty index, which has no [to_timestamp]. *)
Definition dict_index_to_timestamp (keys : list Z) : result (list Z) :=
  match keys with
  | [] => Raise AttributeError
  | _ :: _ => Ok (fmap (to_timestamp M) keys)
  end.

(** The table that [pivot_table] returns: row labels, column labels and
    the cells, row by row; a cell without data is [nan]. *)
Record Pivot := {
  index : list Z;
  columns : list Z;
  values : list (list float)
}.

(** A table given by its labels and a cell function. *)
Definition tabulate (idx cols : list Z) (cell : Z -> Z -> float) : Pivot :=
  {| index := idx;
     columns := cols;
     values := fmap (fun c => fmap (cell c) cols) idx |}.

(** The aggregated cell of [pivot_table]: the mean (the default
    [aggfunc]) of the values of the rows labelled [(c, p)]. *)
Definition pivot_cell (t : list (Z * Z * nat)) (c p : Z) : float :=
  series_mean (fmap (fun r => Z.of_nat r.2) (filter (fun r => r.1 = (c, p)) t)).

(** [pivot_table(index='Cohort', columns='CohortPeriod', values='user_id')]
    on rows [((Cohort, CohortPeriod), user_id)]; row and column labels
    come out in ascending order. *)
Definition pivot_table (t : list (Z * Z * nat)) : Pivot :=
  tabulate (merge_sort Z.le (unique (fmap (fun r => r.1.1) t)))
           (merge_sort Z.le (unique (fmap (fun r => r.1.2) t)))
           (pivot_cell t).

(** [pivot.iloc[:, 0]] *)
Definition iloc_col0 (p : Pivot) : result (list float) :=
  match columns p with
  | [] => Raise IndexError
  | _ :: _ => Ok (fmap (fun row => default nan (head row)) (values p))
  end.

(** [pivot.divide(s, axis=0)]: row [i] is divided by [s[i]] *)
Definition divide (p : Pivot) (s : list float) : Pivot :=
  {| index := index p;
     columns := columns p;
     values := zip_with (fun row x => fmap (fun v => fdiv v x) row) (values p) s |}.

(** [pivot.round(3)] *)
Definition round (p : Pivot) : Pivot :=
  {| index := index p;
     columns := columns p;
     values := fmap (fun row : list float => fmap round3 row) (values p) |}.

(** [pivot.loc[c, p]], when both labels exist *)
Definition loc (t : Pivot) (c p : Z) : option float :=
  i ← fst <$> list_find (fun x => x = c) (index t);
  j ← fst <$> list_find (fun x => x = p) (columns t);
  row ← values t !! i;
  row !! j.

(** ** The metric functions of [active_user.py] *)

(** [data.groupby('user_id')[date_column].min().reset_index()]:
    rows (user_id, first_activity_date), ascending in user_id. *)
Definition first_activity (data : DataFrame) : list (Z * Z) :=
  fmap (fun g => (g.1, series_min (fmap date g.2)))
      (groupby Z.le user_id (rows data)).

Definition calculate_dau (data : DataFrame) : list (Z * nat) :=
  fmap (fun g => (g.1, nunique (fmap user_id g.2)))
      (groupby Z.le date (rows data)).

Definition calculate_retention (data : DataFrame) : result (float * float) :=
  let first_activity := first_activity data in
  let data_with_first_activity := merge (rows data) first_activity in
  let within_7_days (r : Z * Z * Z) := bool_decide (r.1.2 <= r.2 + 7) in
  let within_30_days (r : Z * Z * Z) := bool_decide (r.1.2 <= r.2 + 30) in
  let unique_7_day :=
    drop_duplicates (fun r : Z * Z * Z => r.1.1)
      (filter (fun r => within_7_days r = true) data_with_first_activity) in
  let unique_30_day :=
    drop_duplicates (fun r : Z * Z * Z => r.1.1)
      (filter (fun r => within_30_days r = true) data_with_first_activity) in
  r7 ← truediv (length unique_7_day) (length first_activity);
  r30 ← truediv (length unique_30_day) (length first_activity);
  mret (r7, r30).

Definition calculate_a30 (data : DataFrame) (date_range : list Z) : list nat :=
  let active_users (date0 : Z) :=
    let end_date := date0 in
    let start_date := end_date - 29 in
    nunique (fmap user_id
      (filter (fun r => start_date <= date r /\ date r <= end_date) (rows data))) in
  fmap active_users date_range.

(** [data.groupby('user_id')['date'].transform('min')]: for every row the
    minimum date of the rows of its user. *)
Definition transform_min (l : list (Z * Z)) : list Z :=
  fmap (fun r => series_min (fmap date (filter (fun r' => user_id r' = user_id r) l))) l.

Definition cohort_analysis (data : DataFrame) : DataFrame * result Pivot :=
  let cohort := fmap (to_period M) (transform_min (rows data)) in
  let cohort_period :=
    zip_with (fun d c => to_period M d - c) (fmap date (rows data)) cohort in
  let data' :=
    {| rows := rows data; Month := Month data;
       Cohort := Some cohort; CohortPeriod := Some cohort_period |} in
  let cohort_data :=
    fmap (fun g => (g.1, nunique (fmap snd g.2)))
        (groupby lex_le fst (zip (zip cohort cohort_period) (fmap user_id (rows data)))) in
  let cohort_pivot := pivot_table cohort_data in
  (data',
   cohort_size ← iloc_col0 cohort_pivot;
   mret (round (divide cohort_pivot cohort_size))).

Definition calculate_active_users (data : DataFrame) (period : freq) : list (Z * nat) :=
  let active_users :=
    fmap (fun g => (g.1, nunique (fmap user_id g.2)))
        (groupby Z.le (fun r => to_period period (date r)) (rows data)) in
  let active_users := fmap (fun e => (to_timestamp period e.1, e.2)) active_users in
  sort_index active_users.

Definition user_acquisition (data : DataFrame) : list (Z * nat) :=
  let first_activity := first_activity data in
  let acquisition_data :=
    fmap (fun g => (g.1, nunique (fmap user_id g.2)))
        (groupby Z.le (fun r => to_period M (date r)) first_activity) in
  fmap (fun e => (to_timestamp M e.1, e.2)) acquisition_data.

Definition calculate_monthly_churn (data : DataFrame) : DataFrame * result (list (Z * nat)) :=
  let month_col := fmap (fun r => to_period M (date r)) (rows data) in
  let data' :=
    {| rows := rows data; Month := Some month_col;
       Cohort := Cohort data; CohortPeriod := CohortPeriod data |} in
  let monthly_users :=
    fmap (fun g => (g.1, unique (fmap snd g.2)))
        (groupby Z.le fst (zip month_col (fmap user_id (rows data)))) in
  (data',
   churned_users ←
     mapM (fun month =>
       current_month_users ← series_getitem monthly_users month;
       next_month_users ← series_getitem monthly_users (month + 1);
       mret (month,
             size ((list_to_set current_month_users : gset Z)
                     ∖ list_to_set next_month_users)))
       (merge_sort Z.le (removelast (fmap fst monthly_users)));
   idx ← dict_index_to_timestamp (fmap fst churned_users);
   mret (zip idx (fmap snd churned_users))).

Definition calculate_average_churn (data : DataFrame) : DataFrame * result float :=
  let (data', monthly_churn) := calculate_monthly_churn data in
  (data',
   monthly_churn ← monthly_churn;
   mret (series_mean (fmap (fun e => Z.of_nat e.2) monthly_churn))).

(** ** The Streamlit page of [main] *)



(** ** Vocabulary of the specification *)

(** [u] has an event in the log. *)
Definition active (log : list (Z * Z)) (u : Z) : Prop :=
  exists d, (u, d) ∈ log.

(** FirstActivity: [f] is the minimum date of the events of [u]. *)
Definition FirstActivity (log : list (Z * Z)) (u f : Z) : Prop :=
  (u, f) ∈ log /\ forall d, (u, d) ∈ log -> f <= d.

(** [n] is the number of distinct user_ids that satisfy [P]. *)
Definition distinct_users (P : Z -> Prop) (n : nat) : Prop :=
  exists us : list Z, NoDup us /\ (forall u, u ∈ us <-> P u) /\ length us = n.

(** [u] is retained at [N] days: an event of [u] lies in the inclusive
    window from the first activity of [u] to [N] days later. *)
Definition retained (log : list (Z * Z)) (N : Z) (u : Z) : Prop :=
  exists d f, (u, d) ∈ log /\ FirstActivity log u f /\ f <= d <= f + N.

(** Calendar-month index of a date and the CohortPeriod of an event of a
    user whose first activity is [f]. *)
Definition month_index (d : Z) : Z := to_period M d.
Definition cohort_period_of (d f : Z) : Z := month_index d - month_index f.

(** [u] belongs to cohort [c] and is active [p] months after it. *)
Definition cohort_active (log : list (Z * Z)) (c p : Z) (u : Z) : Prop :=
  exists d f, (u, d) ∈ log /\ FirstActivity log u f /\
    month_index f = c /\ cohort_period_of d f = p.

(** [u] has an event in the period of frequency [f] with ordinal [p]. *)
Definition active_in_period (log : list (Z * Z)) (f : freq) (p : Z) (u : Z) : Prop :=
  exists d, (u, d) ∈ log /\ to_period f d = p.

(** The first activity of [u] falls in calendar month [m]. *)
Definition acquired_in_month (log : list (Z * Z)) (m : Z) (u : Z) : Prop :=
  exists f, FirstActivity log u f /\ month_index f = m.

(** [u] has an event in the inclusive 30-day window that ends at [D]. *)
Definition active_in_window (log : list (Z * Z)) (D : Z) (u : Z) : Prop :=
  exists d, (u, d) ∈ log /\ D - 29 <= d <= D.

(** Row-wise reading of the two columns that [cohort_analysis] assigns:
    the cohort of a user and the (Cohort, CohortPeriod, user_id) triple of
    an event. *)
Definition cohort_of (log : list (Z * Z)) (u : Z) : Z :=
  to_period M (series_min (date <$> filter (fun r => user_id r = u) log)).

Definition cohort_row (log : list (Z * Z)) (r : Z * Z) : Z * Z * Z :=
  (cohort_of log (user_id r),
   to_period M (date r) - cohort_of log (user_id r),
   user_id r).

(** The rows of [cohort_data]: the distinct users of every
    (Cohort, CohortPeriod) group. *)
Definition cohort_counts (log : list (Z * Z)) : list (Z * Z * nat) :=
  (fun g : Z * Z * list (Z * Z * Z) => (g.1, nunique (snd <$> g.2))) <$>
    groupby lex_le fst (cohort_row log <$> log).

(** [u] churns after month [m]: active in [m], not in the month after. *)
Definition churned (log : list (Z * Z)) (m : Z) (u : Z) : Prop :=
  active_in_period log M m u /\ ~ active_in_period log M (m + 1) u.

(** Month [m] holds events and is not the last month that does. *)
Definition month_before_last (log : list (Z * Z)) (m : Z) : Prop :=
  (exists u, active_in_period log M m u) /\
  (exists m' u, m < m' /\ active_in_period log M m' u).

(** Row-wise reading of [calculate_monthly_churn]: the (Month, user_id)
    pair of an event, the series [monthly_users], and one turn of the
    loop that fills [churned_users]. *)
Definition month_row (r : Z * Z) : Z * Z := (to_period M (date r), user_id r).

Definition monthly_users (log : list (Z * Z)) : list (Z * list Z) :=
  (fun g : Z * list (Z * Z) => (g.1, unique (snd <$> g.2))) <$>
    groupby Z.le fst (month_row <$> log).

(** The value of [monthly_users] at a month that holds events, and the
    number the loop stores for a month whose next month holds events. *)
Definition month_users (log : list (Z * Z)) (m : Z) : list Z :=
  unique (snd <$> filter (fun t : Z * Z => t.1 = m) (month_row <$> log)).

Definition churn_count (log : list (Z * Z)) (m : Z) : nat :=
  size ((list_to_set (month_users log m) : gset Z)
          ∖ list_to_set (month_users log (m + 1))).

Definition churn_of (log : list (Z * Z)) (month : Z) : result (Z * nat) :=
  current_month_users ← series_getitem (monthly_users log) month;
  next_month_users ← series_getitem (monthly_users log) (month + 1);
  mret (month,
        size ((list_to_set current_month_users : gset Z)
                ∖ list_to_set next_month_users)).

(** ** Examples of the embedding *)

Definition log1 : DataFrame := load_data
  [(1, Timestamp 2023 1 5); (1, Timestamp 2023 2 10);
   (2, Timestamp 2023 1 20); (2, Timestamp 2023 2 1)].

Definition log_gap : DataFrame :=
  load_data [(1, Timestamp 2023 1 5); (1, Timestamp 2023 3 10)].

Definition log_single : DataFrame := load_data [(1, Timestamp 2023 1 1)].

(** The events of [log1] in another order, one of them twice. *)
Definition log1_shuffled : DataFrame := load_data
  [(2, Timestamp 2023 2 1); (1, Timestamp 2023 1 5); (2, Timestamp 2023 1 20);
   (1, Timestamp 2023 2 10); (2, Timestamp 2023 2 1)].

Example Timestamp_epoch : Timestamp 1970 1 1 = 0.
Proof. reflexivity. Qed.

Example civil_2023_02_10 :
  Calendar.civil_from_days (Timestamp 2023 2 10) = (2023, 2, 10).
Proof. reflexivity. Qed.

Example civil_2024_02_29 :
  Calendar.civil_from_days (Timestamp 2024 2 29) = (2024, 2, 29).
Proof. reflexivity. Qed.

Example month_2023_01 : to_period M (Timestamp 2023 1 5) = 636.
Proof. reflexivity. Qed.

Example month_start_2023_01 : to_timestamp M 636 = Timestamp 2023 1 1.
Proof. reflexivity. Qed.

Example week_of_epoch : to_timestamp W (to_period W 0) = Timestamp 1969 12 29.
Proof. reflexivity. Qed.

Example round3_third : round3 (fin (1 # 3)) = fin (333 # 1000).
Proof. reflexivity. Qed.

Example round3_tie : round3 (fin (1 # 16)) = fin (31 # 500).
Proof. reflexivity. Qed.

Example retention_log1 : calculate_retention log1 = Ok (fin 1, fin 1).
Proof. vm_compute. reflexivity. Qed.

Example cohort_log1 :
  snd (cohort_analysis log1)
  = Ok {| index := [636]; columns := [0; 1]; values := [[fin 1; fin 1]] |}.
Proof. vm_compute. reflexivity. Qed.

Example churn_log1 :
  snd (calculate_monthly_churn log1) = Ok [(Timestamp 2023 1 1, 0%nat)].
Proof. vm_compute. reflexivity. Qed.

Example active_users_week_log1 :
  calculate_active_users log1 W
  = [(Timestamp 2023 1 2, 1%nat); (Timestamp 2023 1 16, 1%nat);
     (Timestamp 2023 1 30, 1%nat); (Timestamp 2023 2 6, 1%nat)].
Proof. vm_compute. reflexivity. Qed.

Example a30_log1 :
  calculate_a30 log1 [Timestamp 2023 2 1; Timestamp 2023 2 10; Timestamp 2023 3 5]
  = [2%nat; 2%nat; 1%nat].
Proof. vm_compute. reflexivity. Qed.

Example retention_empty : calculate_retention (load_data []) = Raise ZeroDivisionError.
Proof. reflexivity. Qed.

Example cohort_empty : snd (cohort_analysis (load_data [])) = Raise IndexError.
Proof. reflexivity. Qed.

(** ** Calendar facts *)

Module CalendarFacts.
Import Calendar.

Lemma doy_bounds doe :
  0 <= doe < 146097 -> 0 <= yoe_of doe <= 399 /\ 0 <= doy_of doe <= 365.
Proof.
  intros Hdoe. unfold doy_of, yoe_of. Z.div_mod_to_equations. lia.
Qed.

Lemma mp_bounds doy : 0 <= doy <= 365 -> 0 <= mp_of doy <= 11.
Proof. intros Hdoy. unfold mp_of. Z.div_mod_to_equations. lia. Qed.

Lemma yoe_mono a b : 0 <= a <= b -> b < 146097 -> yoe_of a <= yoe_of b.
Proof.
  intros Hab Hb. unfold yoe_of. Z.div_mod_to_equations. lia.
Qed.

Lemma moe_bounds doe : 0 <= doe < 146097 -> 0 <= moe_of doe <= 4799.
Proof.
  intros Hdoe. unfold moe_of.
  destruct (doy_bounds doe Hdoe) as [Hy Hd].
  pose proof (mp_bounds _ Hd). lia.
Qed.

Lemma moe_mono a b : 0 <= a <= b -> b < 146097 -> moe_of a <= moe_of b.
Proof.
  intros Hab Hb. unfold moe_of.
  destruct (doy_bounds a ltac:(lia)) as [Hya Hda].
  destruct (doy_bounds b ltac:(lia)) as [Hyb Hdb].
  pose proof (yoe_mono a b Hab Hb) as Hy.
  pose proof (mp_bounds _ Hda). pose proof (mp_bounds _ Hdb).
  destruct (Z.eq_dec (yoe_of a) (yoe_of b)) as [Heq|Hne]; [|lia].
  assert (doy_of a <= doy_of b) as Hd
    by (unfold doy_of; cbv zeta; rewrite Heq; lia).
  rewrite Heq. unfold mp_of. Z.div_mod_to_equations. lia.
Qed.

(** The month ordinal in terms of era and month of era. *)
Lemma to_period_M_eq z :
  to_period M z
  = 4800 * ((z + 719468) / 146097) + moe_of ((z + 719468) mod 146097) - 23638.
Proof.
  unfold to_period, year, month, civil_from_days, moe_of. cbn [fst snd].
  set (doe := (z + 719468) mod 146097).
  assert (0 <= doe < 146097) as Hdoe by (apply Z.mod_pos_bound; lia).
  destruct (doy_bounds doe Hdoe) as [_ Hd].
  pose proof (mp_bounds _ Hd) as Hmp.
  destruct (Z.ltb_spec (mp_of (doy_of doe)) 10);
    match goal with
    | |- context [?a <=? 2] => destruct (Z.leb_spec a 2)
    end; lia.
Qed.

(** Later dates lie in the same or a later calendar month. *)
Lemma to_period_M_mono a b : a <= b -> to_period M a <= to_period M b.
Proof.
  intros Hab. rewrite !to_period_M_eq.
  set (a' := a + 719468). set (b' := b + 719468).
  assert (a' <= b') as Hab' by (unfold a', b'; lia).
  pose proof (Z.div_le_mono a' b' 146097 ltac:(lia) Hab') as He.
  pose proof (Z.mod_pos_bound a' 146097 ltac:(lia)) as Ha.
  pose proof (Z.mod_pos_bound b' 146097 ltac:(lia)) as Hb.
  pose proof (moe_bounds _ Ha). pose proof (moe_bounds _ Hb).
  destruct (Z.eq_dec (a' / 146097) (b' / 146097)) as [Heq|Hne]; [|lia].
  assert (a' mod 146097 <= b' mod 146097) as Hm.
  { pose proof (Z.div_mod a' 146097 ltac:(lia)).
    pose proof (Z.div_mod b' 146097 ltac:(lia)). lia. }
  pose proof (moe_mono _ _ (conj (proj1 Ha) Hm) (proj2 Hb)). lia.
Qed.

End CalendarFacts.

(** ** Facts about the pandas operations *)

Section KernelFacts.
Context {V K : Type} `{EqDecision K}.
Implicit Types (key : V -> K) (l : list V).

Lemma elem_of_drop_duplicates key l x :
  x ∈ drop_duplicates key l -> x ∈ l.
Proof.
  induction l as [|y l IH]; csimpl; [done|].
  rewrite !elem_of_cons, list_elem_of_filter. naive_solver.
Qed.

Lemma drop_duplicates_keys key l k :
  k ∈ key <$> drop_duplicates key l <-> k ∈ key <$> l.
Proof.
  split.
  - rewrite !list_elem_of_fmap. intros (x & -> & Hx).
    eauto using elem_of_drop_duplicates.
  - induction l as [|y l IH]; csimpl; [done|].
    rewrite !elem_of_cons. intros [->|Hk]; [by left|].
    destruct (decide (k = key y)) as [->|Hne]; [by left|right].
    apply IH, list_elem_of_fmap in Hk as (x & -> & Hx).
    apply list_elem_of_fmap. exists x. split; [done|].
    by apply list_elem_of_filter.
Qed.

Lemma NoDup_fmap_filter key (P : V -> Prop) `{forall x, Decision (P x)} l :
  NoDup (key <$> l) -> NoDup (key <$> filter P l).
Proof.
  intros Hnd. eapply sublist_NoDup; [exact Hnd|].
  apply fmap_sublist, sublist_filter.
Qed.

Lemma NoDup_drop_duplicates key l : NoDup (key <$> drop_duplicates key l).
Proof.
  induction l as [|y l IH]; csimpl; [constructor|].
  apply NoDup_cons. split; [|by apply NoDup_fmap_filter].
  rewrite list_elem_of_fmap. intros (x & Hx & Hin).
  apply list_elem_of_filter in Hin as [Hne _]. congruence.
Qed.

(** Projecting the surviving rows on the key is [unique] of the keys. *)
Lemma fmap_drop_duplicates key l :
  key <$> drop_duplicates key l = drop_duplicates id (key <$> l).
Proof.
  induction l as [|y l IH]; csimpl; [done|]. f_equal.
  rewrite <- IH. generalize (drop_duplicates key l). intros l'.
  induction l' as [|z l' IH']; [done|].
  rewrite filter_cons. csimpl. rewrite filter_cons. unfold id.
  destruct (decide (key z <> key y)); csimpl; by rewrite IH'.
Qed.

End KernelFacts.

Lemma elem_of_unique (l : list Z) (x : Z) : x ∈ unique l <-> x ∈ l.
Proof.
  unfold unique. rewrite <- (list_fmap_id (drop_duplicates id l)).
  rewrite drop_duplicates_keys. by rewrite list_fmap_id.
Qed.

Lemma NoDup_unique (l : list Z) : NoDup (unique l).
Proof.
  unfold unique. rewrite <- (list_fmap_id (drop_duplicates id l)).
  apply NoDup_drop_duplicates.
Qed.

Lemma sum_list_with_fmap {A B} (f : B -> nat) (g : A -> B) (l : list A) :
  sum_list_with f (g <$> l) = sum_list_with (fun x => f (g x)) l.
Proof. induction l as [|x l IH]; csimpl; [done|]. by rewrite IH. Qed.

Section GroupByFacts.
Context {V K : Type} `{EqDecision K}.
Context (R : relation K) `{forall x y, Decision (R x y)}.
Implicit Types (key : V -> K) (l : list V).

Lemma elem_of_key_set (ks : list K) k :
  k ∈ merge_sort R (drop_duplicates id ks) <-> k ∈ ks.
Proof.
  rewrite merge_sort_Permutation.
  rewrite <- (list_fmap_id (drop_duplicates id ks)).
  rewrite drop_duplicates_keys. by rewrite list_fmap_id.
Qed.

Lemma NoDup_key_set (ks : list K) :
  NoDup (merge_sort R (drop_duplicates id ks)).
Proof.
  rewrite merge_sort_Permutation.
  rewrite <- (list_fmap_id (drop_duplicates id ks)).
  apply NoDup_drop_duplicates.
Qed.

Lemma groupby_keys key l :
  (groupby R key l).*1 = merge_sort R (drop_duplicates id (key <$> l)).
Proof.
  unfold groupby. rewrite <- list_fmap_compose.
  rewrite <- (list_fmap_id (merge_sort _ _)) at 2. done.
Qed.

Lemma elem_of_groupby_keys key l k :
  k ∈ (groupby R key l).*1 <-> k ∈ key <$> l.
Proof. by rewrite groupby_keys, elem_of_key_set. Qed.

Lemma elem_of_groupby key l k g :
  (k, g) ∈ groupby R key l <->
  k ∈ key <$> l /\ g = filter (fun r => key r = k) l.
Proof.
  unfold groupby. rewrite list_elem_of_fmap. split.
  - intros (k' & [= -> ->] & Hk). split; [|done].
    by rewrite elem_of_key_set in Hk.
  - intros [Hk ->]. exists k. split; [done|].
    by rewrite elem_of_key_set.
Qed.

Lemma NoDup_groupby_keys key l : NoDup (groupby R key l).*1.
Proof. rewrite groupby_keys. apply NoDup_key_set. Qed.

Lemma length_groupby key l :
  length (groupby R key l) = length (drop_duplicates id (key <$> l)).
Proof.
  unfold groupby. by rewrite length_fmap, merge_sort_Permutation.
Qed.

Lemma sum_list_with_ext (f g : K -> nat) (ks : list K) :
  (forall k, f k = g k) -> sum_list_with f ks = sum_list_with g ks.
Proof.
  intros Hfg. induction ks as [|k ks IH]; csimpl; [done|].
  by rewrite Hfg, IH.
Qed.

Lemma sum_list_with_hit (f : K -> nat) (k0 : K) (ks : list K) :
  NoDup ks ->
  sum_list_with (fun k => if decide (k0 = k) then S (f k) else f k) ks
  = (sum_list_with f ks + (if decide (k0 ∈ ks) then 1 else 0))%nat.
Proof.
  induction 1 as [|k ks Hk Hnd IH]; csimpl; [done|].
  rewrite IH.
  repeat case_decide; subst; try lia;
    exfalso; rewrite ?elem_of_cons in *; naive_solver.
Qed.

Lemma partition_length key (ks : list K) l :
  NoDup ks -> (forall x, x ∈ l -> key x ∈ ks) ->
  sum_list_with (fun k => length (filter (fun r => key r = k) l)) ks
  = length l.
Proof.
  intros Hnd. induction l as [|x l IH]; intros Hks.
  - clear Hnd Hks. induction ks as [|k ks IHks]; [done|]. exact IHks.
  - rewrite (sum_list_with_ext _
      (fun k => if decide (key x = k)
                then S (length (filter (fun r => key r = k) l))
                else length (filter (fun r => key r = k) l))).
    + rewrite sum_list_with_hit by done.
      rewrite IH by (intros y Hy; apply Hks; by right).
      case_decide as Hx; [csimpl; lia|]. exfalso. apply Hx, Hks. by left.
    + intros k. rewrite filter_cons.
      destruct (decide (key x = k)); done.
Qed.

(** The groups partition the rows. *)
Lemma groupby_partition key l :
  sum_list_with (fun g => length g.2) (groupby R key l) = length l.
Proof.
  unfold groupby. rewrite sum_list_with_fmap. csimpl.
  apply partition_length; [apply NoDup_key_set|].
  intros x Hx. apply elem_of_key_set. by apply list_elem_of_fmap_2.
Qed.

End GroupByFacts.

(** *** Counting distinct users *)

Lemma distinct_users_nunique (l : list Z) (P : Z -> Prop) :
  (forall u, u ∈ l <-> P u) -> distinct_users P (nunique l).
Proof.
  intros HP. exists (unique l). split; [apply NoDup_unique|]. split; [|done].
  intros u. by rewrite elem_of_unique.
Qed.

Lemma distinct_users_inj (P : Z -> Prop) (n m : nat) :
  distinct_users P n -> distinct_users P m -> n = m.
Proof.
  intros (us & Hus & HP & <-) (vs & Hvs & HQ & <-).
  apply Permutation_length, NoDup_Permutation; [done..|].
  intros u. by rewrite HP, HQ.
Qed.

Lemma distinct_users_iff (P Q : Z -> Prop) (n : nat) :
  (forall u, P u <-> Q u) -> distinct_users P n -> distinct_users Q n.
Proof.
  intros HPQ (us & Hus & HP & <-). exists us. split; [done|]. split; [|done].
  intros u. by rewrite HP.
Qed.

Lemma nunique_NoDup (l : list Z) : NoDup l -> nunique l = length l.
Proof.
  intros Hnd. apply Permutation_length, NoDup_Permutation;
    [apply NoDup_unique|done|apply elem_of_unique].
Qed.

Lemma nunique_equiv (l k : list Z) :
  (forall u, u ∈ l <-> u ∈ k) -> nunique l = nunique k.
Proof.
  intros Hlk. apply Permutation_length, NoDup_Permutation;
    [apply NoDup_unique..|].
  intros u. by rewrite !elem_of_unique.
Qed.

(** *** First activity *)

Lemma series_min_spec (l : list Z) :
  l <> [] -> series_min l ∈ l /\ forall x, x ∈ l -> series_min l <= x.
Proof.
  destruct l as [|x l]; [done|intros _]. csimpl.
  induction l as [|y l [IHin IHle]]; csimpl.
  - split; [by left|]. intros z ->%list_elem_of_singleton. lia.
  - split.
    + destruct (Z.min_spec y (foldr Z.min x l)) as [[_ ->]|[_ ->]].
      * right. by left.
      * apply elem_of_cons in IHin as [Heq|Hin]; [rewrite Heq; by left|].
        right. by right.
    + intros z Hz.
      assert (z = y \/ z ∈ x :: l) as [->|Hz'].
      { rewrite !elem_of_cons in Hz. rewrite elem_of_cons. naive_solver. }
      * lia.
      * specialize (IHle z Hz'). lia.
Qed.

Lemma FirstActivity_inj (log : list (Z * Z)) (u f f' : Z) :
  FirstActivity log u f -> FirstActivity log u f' -> f = f'.
Proof.
  intros [Hf Hmin] [Hf' Hmin'].
  specialize (Hmin _ Hf'). specialize (Hmin' _ Hf). lia.
Qed.

(** The minimum over the rows of a user is the first activity. *)
Lemma series_min_FirstActivity (log : list (Z * Z)) (u : Z) :
  active log u ->
  FirstActivity log u
    (series_min (date <$> filter (fun r => user_id r = u) log)).
Proof.
  intros [d Hd].
  set (g := filter (fun r => user_id r = u) log).
  assert ((u, d) ∈ g) as Hg by (by apply list_elem_of_filter).
  destruct (series_min_spec (date <$> g)) as [Hin Hle].
  { intros Hnil. apply fmap_nil_inv in Hnil. rewrite Hnil in Hg.
    by apply not_elem_of_nil in Hg. }
  split.
  - apply list_elem_of_fmap in Hin as ([u' f] & Hf & Hr).
    apply list_elem_of_filter in Hr as [Hu Hr].
    unfold user_id, date in *. simpl in *. by subst.
  - intros d' Hd'. apply Hle.
    apply list_elem_of_fmap. exists (u, d'). split; [done|].
    by apply list_elem_of_filter.
Qed.

Lemma elem_of_first_activity (data : DataFrame) (u f : Z) :
  (u, f) ∈ first_activity data <-> FirstActivity (rows data) u f.
Proof.
  unfold first_activity. rewrite list_elem_of_fmap. split.
  - intros ([k g] & [= -> ->] & Hg). csimpl.
    apply elem_of_groupby in Hg as [Hk ->].
    apply series_min_FirstActivity.
    apply list_elem_of_fmap in Hk as ([u' d] & -> & Hr). by exists d.
  - intros Hf.
    exists (u, filter (fun r => user_id r = u) (rows data)). split.
    + csimpl. f_equal. eapply FirstActivity_inj; [done|].
      apply series_min_FirstActivity. destruct Hf as [Hf _]. by exists f.
    + apply elem_of_groupby. split; [|done].
      destruct Hf as [Hf _]. apply list_elem_of_fmap. by exists (u, f).
Qed.

Lemma first_activity_users (data : DataFrame) :
  (first_activity data).*1
  = merge_sort Z.le (unique (user_id <$> rows data)).
Proof.
  unfold first_activity, unique. rewrite <- (groupby_keys Z.le user_id).
  rewrite <- list_fmap_compose. apply list_fmap_ext. by intros i [k g] _.
Qed.

Lemma NoDup_first_activity (data : DataFrame) :
  NoDup (first_activity data).*1.
Proof. rewrite first_activity_users. apply NoDup_key_set. Qed.

Lemma length_first_activity (data : DataFrame) :
  length (first_activity data) = nunique (user_id <$> rows data).
Proof.
  unfold first_activity. by rewrite length_fmap, length_groupby.
Qed.

Lemma active_iff (log : list (Z * Z)) (u : Z) :
  u ∈ user_id <$> log <-> active log u.
Proof.
  rewrite list_elem_of_fmap. split.
  - intros ([u' d] & -> & Hr). by exists d.
  - intros [d Hd]. by exists (u, d).
Qed.

Lemma active_FirstActivity (log : list (Z * Z)) (u : Z) :
  active log u <-> exists f, FirstActivity log u f.
Proof.
  split.
  - intros Hu. eexists. by apply series_min_FirstActivity.
  - intros [f [Hf _]]. by exists f.
Qed.

(** ** Fixed-window retention *)

Lemma elem_of_merge (left right : list (Z * Z)) (u d f : Z) :
  (u, d, f) ∈ merge left right <-> (u, d) ∈ left /\ (u, f) ∈ right.
Proof.
  unfold merge. rewrite list_elem_of_bind. split.
  - intros ([u1 d1] & Hin & Hl). apply list_elem_of_bind in Hin as ([u2 f2] & Hin & Hr).
    unfold user_id, date in Hin. simpl in Hin. case_decide as Hu.
    + apply list_elem_of_singleton in Hin as [= -> -> ->]. by subst.
    + by apply not_elem_of_nil in Hin.
  - intros [Hl Hr]. exists (u, d). split; [|done].
    apply list_elem_of_bind. exists (u, f). split; [|done].
    unfold user_id, date. simpl. rewrite decide_True by done. by left.
Qed.

Lemma length_drop_duplicates {V} (key : V -> Z) (l : list V) :
  length (drop_duplicates key l) = nunique (key <$> l).
Proof.
  unfold nunique, unique. by rewrite <- fmap_drop_duplicates, length_fmap.
Qed.

(** The users that survive the [within_N_days] filter are the users
    retained at [N] days. *)
Lemma retained_users (data : DataFrame) (N : Z) (u : Z) :
  u ∈ (fun r : Z * Z * Z => r.1.1) <$>
        filter (fun r : Z * Z * Z => bool_decide (r.1.2 <= r.2 + N) = true)
               (merge (rows data) (first_activity data))
  <-> retained (rows data) N u.
Proof.
  rewrite list_elem_of_fmap. split.
  - intros ([[u' d] f] & -> & Hr). simpl.
    apply list_elem_of_filter in Hr as [Hw Hr]. simpl in Hw.
    apply bool_decide_eq_true in Hw.
    apply elem_of_merge in Hr as [Hd Hf].
    apply elem_of_first_activity in Hf.
    exists d, f. split; [done|]. split; [done|].
    destruct Hf as [_ Hmin]. specialize (Hmin _ Hd). lia.
  - intros (d & f & Hd & Hf & Hw). exists (u, d, f). split; [done|].
    apply list_elem_of_filter. split.
    + simpl. apply bool_decide_eq_true. lia.
    + apply elem_of_merge. split; [done|]. by apply elem_of_first_activity.
Qed.

(** The first event of a user lies in every window. *)
Lemma retained_active (log : list (Z * Z)) (N u : Z) :
  0 <= N -> retained log N u <-> active log u.
Proof.
  intros HN. split.
  - intros (d & _ & Hd & _). by exists d.
  - intros [f Hf]%active_FirstActivity. exists f, f.
    split; [by destruct Hf|]. split; [done|]. lia.
Qed.

Lemma truediv_same (n : nat) : (0 < n)%nat -> truediv n n = Ok (fin 1).
Proof.
  destruct n as [|k]; [lia|intros _]. unfold truediv. do 2 f_equal.
  change 1%Q with (Qred 1). apply Qred_complete. unfold Qeq.
  cbn [Qnum Qden]. rewrite <- Pos.of_nat_succ, Zpos_P_of_succ_nat. lia.
Qed.

Lemma nunique_pos (l : list Z) : l <> [] -> (0 < nunique l)%nat.
Proof. destruct l; [done|]. intros _. unfold nunique, unique. simpl. lia. Qed.

Lemma calculate_retention_counts (data : DataFrame) :
  calculate_retention data
  = (r7 ← truediv (nunique ((fun r : Z * Z * Z => r.1.1) <$>
             filter (fun r : Z * Z * Z => bool_decide (r.1.2 <= r.2 + 7) = true)
                    (merge (rows data) (first_activity data))))
                  (nunique (user_id <$> rows data));
     r30 ← truediv (nunique ((fun r : Z * Z * Z => r.1.1) <$>
             filter (fun r : Z * Z * Z => bool_decide (r.1.2 <= r.2 + 30) = true)
                    (merge (rows data) (first_activity data))))
                  (nunique (user_id <$> rows data));
     mret (r7, r30)).
Proof.
  unfold calculate_retention.
  by rewrite !length_drop_duplicates, length_first_activity.
Qed.

(** Every distinct user survives the filter of either window. *)
Lemma retained_count (data : DataFrame) (N : Z) :
  0 <= N ->
  nunique ((fun r : Z * Z * Z => r.1.1) <$>
    filter (fun r : Z * Z * Z => bool_decide (r.1.2 <= r.2 + N) = true)
           (merge (rows data) (first_activity data)))
  = nunique (user_id <$> rows data).
Proof.
  intros HN. apply nunique_equiv. intros u.
  by rewrite retained_users, retained_active, active_iff.
Qed.

Lemma nunique_users_pos (data : DataFrame) :
  rows data <> [] -> (0 < nunique (user_id <$> rows data))%nat.
Proof. intros Hne. apply nunique_pos. by intros ?%fmap_nil_inv. Qed.

(** C10: for every non-empty event log, retention returns exactly
    (1.0, 1.0): the first event of every user lies in both windows, so
    every distinct user is counted in both numerators. *)
Theorem retention_always_one (data : DataFrame) :
  rows data <> [] -> calculate_retention data = Ok (fin 1, fin 1).
Proof.
  intros Hne. rewrite calculate_retention_counts.
  rewrite !retained_count by lia.
  by rewrite truediv_same by by apply nunique_users_pos.
Qed.

Lemma retention_always_one_witness :
  rows log1 <> [] /\ calculate_retention log1 = Ok (fin 1, fin 1).
Proof. split; [done|]. apply retention_always_one. done. Defined.

(** C5: for every non-empty event log both retention ratios are the
    number of distinct users retained at 7 (30) days, i.e. with an event
    in the inclusive window from their first activity to 7 (30) days
    later, divided by the number of distinct users; both lie in (0, 1];
    and when no user has activity after the first event both are 1.0. *)
Theorem retention_in_unit_interval (data : DataFrame) :
  rows data <> [] ->
  exists (n7 n30 n : nat) (r7 r30 : Q),
    distinct_users (retained (rows data) 7) n7 /\
    distinct_users (retained (rows data) 30) n30 /\
    distinct_users (active (rows data)) n /\
    truediv n7 n = Ok (fin r7) /\
    truediv n30 n = Ok (fin r30) /\
    calculate_retention data = Ok (fin r7, fin r30) /\
    (0 < r7 /\ r7 <= 1)%Q /\
    (0 < r30 /\ r30 <= 1)%Q /\
    ((forall u d f, (u, d) ∈ rows data ->
        FirstActivity (rows data) u f -> d = f) ->
     r7 = 1%Q /\ r30 = 1%Q).
Proof.
  intros Hne.
  set (kept N := (fun r : Z * Z * Z => r.1.1) <$>
      filter (fun r : Z * Z * Z => bool_decide (r.1.2 <= r.2 + N) = true)
             (merge (rows data) (first_activity data))).
  assert (distinct_users (retained (rows data) 7) (nunique (kept 7))) as H7
    by (apply distinct_users_nunique; intros u; apply retained_users).
  assert (distinct_users (retained (rows data) 30) (nunique (kept 30))) as H30
    by (apply distinct_users_nunique; intros u; apply retained_users).
  assert (distinct_users (active (rows data))
            (nunique (user_id <$> rows data))) as Hn
    by (apply distinct_users_nunique; intros u; apply active_iff).
  assert (nunique (kept 7) = nunique (user_id <$> rows data)) as E7.
  { eapply distinct_users_inj; [exact H7|].
    eapply distinct_users_iff; [|exact Hn].
    intros u. symmetry. by apply retained_active. }
  assert (nunique (kept 30) = nunique (user_id <$> rows data)) as E30.
  { eapply distinct_users_inj; [exact H30|].
    eapply distinct_users_iff; [|exact Hn].
    intros u. symmetry. by apply retained_active. }
  pose proof (nunique_users_pos data Hne) as Hpos.
  exists (nunique (kept 7)), (nunique (kept 30)),
    (nunique (user_id <$> rows data)), 1%Q, 1%Q.
  split; [done|]. split; [done|]. split; [done|].
  rewrite calculate_retention_counts. fold (kept 7) (kept 30).
  rewrite E7, E30, truediv_same by done.
  repeat split; done.
Qed.

Lemma retention_in_unit_interval_witness :
  rows log1 <> [] /\
  exists (n7 n30 n : nat) (r7 r30 : Q),
    distinct_users (retained (rows log1) 7) n7 /\
    distinct_users (retained (rows log1) 30) n30 /\
    distinct_users (active (rows log1)) n /\
    truediv n7 n = Ok (fin r7) /\
    truediv n30 n = Ok (fin r30) /\
    calculate_retention log1 = Ok (fin r7, fin r30) /\
    (0 < r7 /\ r7 <= 1)%Q /\
    (0 < r30 /\ r30 <= 1)%Q /\
    ((forall u d f, (u, d) ∈ rows log1 ->
        FirstActivity (rows log1) u f -> d = f) ->
     r7 = 1%Q /\ r30 = 1%Q).
Proof. split; [done|]. apply retention_in_unit_interval. done. Defined.

(** ** Rolling 30-day window *)

(** C8: for every event log and every sequence of query dates,
    rolling_active returns one count per query date, in the same order;
    the count for [D] is the number of distinct users with an event in
    the inclusive window from [D - 29] to [D]. *)
Theorem rolling_active_window (data : DataFrame) (date_range : list Z) :
  Forall2 (fun D n => distinct_users (active_in_window (rows data) D) n)
          date_range (calculate_a30 data date_range).
Proof.
  unfold calculate_a30. apply Forall2_fmap_r, Forall_Forall2_diag, Forall_forall.
  intros D _. simpl. apply distinct_users_nunique. intros u.
  rewrite list_elem_of_fmap. unfold active_in_window. split.
  - intros ([u' d] & -> & Hr). apply list_elem_of_filter in Hr as [Hw Hr].
    exists d. unfold date in Hw. simpl in Hw. by split.
  - intros (d & Hr & Hw). exists (u, d). split; [done|].
    by apply list_elem_of_filter.
Qed.

(** ** Periodic active users *)

Module PeriodFacts.
Import Calendar.

Lemma month_start_step p : to_timestamp M p < to_timestamp M (p + 1).
Proof.
  unfold to_timestamp, days_from_civil.
  assert (0 <= p mod 12 < 12) by (apply Z.mod_pos_bound; lia).
  assert (0 <= (p + 1) mod 12 < 12) by (apply Z.mod_pos_bound; lia).
  destruct (Z.leb_spec (p mod 12 + 1) 2), (Z.ltb_spec 2 (p mod 12 + 1));
    try lia;
    destruct (Z.leb_spec ((p + 1) mod 12 + 1) 2),
             (Z.ltb_spec 2 ((p + 1) mod 12 + 1)); try lia.
  all: Z.div_mod_to_equations; lia.
Qed.

Lemma month_start_mono p q : p < q -> to_timestamp M p < to_timestamp M q.
Proof.
  intros Hpq. replace q with (p + 1 + (q - p - 1)) by lia.
  assert (0 <= q - p - 1) as Hk by lia. revert Hk.
  generalize (q - p - 1). clear q Hpq.
  apply natlike_ind.
  - rewrite Z.add_0_r. apply month_start_step.
  - intros k Hk IH. etrans; [exact IH|].
    replace (p + 1 + Z.succ k) with (p + 1 + k + 1) by lia.
    apply month_start_step.
Qed.

(** Later periods start later. *)
Lemma to_timestamp_mono (f : freq) (p q : Z) :
  p < q -> to_timestamp f p < to_timestamp f q.
Proof.
  destruct f; [done|unfold to_timestamp; lia|apply month_start_mono].
Qed.

#[global] Instance to_timestamp_inj (f : freq) : Inj (=) (=) (to_timestamp f).
Proof.
  intros p q Heq. destruct (Z.lt_total p q) as [Hlt|[Heq'|Hlt]]; [|done|];
    apply (to_timestamp_mono f) in Hlt; lia.
Qed.

End PeriodFacts.

#[global] Instance label_le_trans {V} : Transitive (@label_le V).
Proof. intros a b c. unfold label_le. lia. Qed.

#[global] Instance label_le_total {V} : Total (@label_le V).
Proof. intros a b. unfold label_le. lia. Qed.

Lemma sort_index_Permutation {V} (s : list (Z * V)) : sort_index s ≡ₚ s.
Proof. apply merge_sort_Permutation. Qed.

Lemma sort_index_sorted {V} (s : list (Z * V)) :
  StronglySorted Z.le (sort_index s).*1.
Proof.
  apply (StronglySorted_fmap _ label_le); [done|].
  apply StronglySorted_merge_sort; apply _.
Qed.

Lemma StronglySorted_le_lt (l : list Z) :
  StronglySorted Z.le l -> NoDup l -> StronglySorted Z.lt l.
Proof.
  induction 1 as [|x l Hs IH Hall]; intros Hnd; constructor.
  - apply IH. by apply NoDup_cons in Hnd as [_ ?].
  - apply NoDup_cons in Hnd as [Hx _].
    rewrite Forall_forall in Hall |- *. intros y Hy.
    specialize (Hall y Hy). assert (x <> y) by (by intros ->). lia.
Qed.

(** The users of a bucket of [groupby(to_period(period))]. *)
Lemma bucket_users (log : list (Z * Z)) (period : freq) (p u : Z) :
  u ∈ user_id <$> filter (fun r => to_period period (date r) = p) log
  <-> active_in_period log period p u.
Proof.
  rewrite list_elem_of_fmap. unfold active_in_period. split.
  - intros ([u' d] & -> & Hr). apply list_elem_of_filter in Hr as [Hp Hr].
    by exists d.
  - intros (d & Hr & Hp). exists (u, d). split; [done|].
    by apply list_elem_of_filter.
Qed.

Lemma bucket_present (log : list (Z * Z)) (period : freq) (p : Z) :
  p ∈ (fun r => to_period period (date r)) <$> log
  <-> exists u, active_in_period log period p u.
Proof.
  rewrite list_elem_of_fmap. unfold active_in_period. split.
  - intros ([u d] & -> & Hr). by exists u, d.
  - intros (u & d & Hr & Hp). by exists (u, d).
Qed.

(** C9: for every event log and every period in {Day, Week, Month},
    active_users returns (period_start_date, distinct_user_count) pairs
    in ascending order of period_start_date, one pair for every period
    that holds an event; a user active on several dates of a bucket counts
    once; an empty log gives the empty sequence. *)
Theorem active_users_per_period (data : DataFrame) (period : freq) :
  StronglySorted Z.lt (calculate_active_users data period).*1 /\
  (forall start n,
     (start, n) ∈ calculate_active_users data period <->
     exists p, (exists u, active_in_period (rows data) period p u) /\
       start = to_timestamp period p /\
       distinct_users (active_in_period (rows data) period p) n) /\
  (calculate_active_users data period = [] <-> rows data = []).
Proof.
  unfold calculate_active_users.
  set (key := fun r : Z * Z => to_period period (date r)).
  set (s := (fun e : Z * nat => (to_timestamp period e.1, e.2)) <$>
    ((fun g : Z * list (Z * Z) => (g.1, nunique (user_id <$> g.2))) <$>
       groupby Z.le key (rows data))).
  assert (s.*1 = to_timestamp period <$> (groupby Z.le key (rows data)).*1)
    as Hlabels.
  { unfold s. rewrite <- !list_fmap_compose. apply list_fmap_ext.
    by intros i [k g] _. }
  split; [|split].
  - apply StronglySorted_le_lt; [apply sort_index_sorted|].
    rewrite (sort_index_Permutation s), Hlabels.
    apply (NoDup_fmap_2 _), NoDup_groupby_keys.
  - intros start n. rewrite (sort_index_Permutation s). unfold s.
    rewrite <- list_fmap_compose, list_elem_of_fmap. split.
    + intros ([k g] & [= -> ->] & Hg). cbn [fst snd].
      apply elem_of_groupby in Hg as [Hk ->].
      exists k. split; [by apply bucket_present|]. split; [done|].
      apply distinct_users_nunique. intros u. apply bucket_users.
    + intros (p & Hp & -> & Hn).
      exists (p, filter (fun r => key r = p) (rows data)). split.
      * cbn. f_equal. eapply distinct_users_inj; [exact Hn|].
        apply distinct_users_nunique. intros u. apply bucket_users.
      * apply elem_of_groupby. split; [|done]. by apply bucket_present.
  - split.
    + intros Hnil.
      assert (s = []) as Hs.
      { apply Permutation_nil_r. by rewrite <- (sort_index_Permutation s), Hnil. }
      unfold s in Hs. do 2 apply fmap_nil_inv in Hs.
      pose proof (length_groupby Z.le key (rows data)) as Hlen.
      rewrite Hs in Hlen. destruct (rows data); [done|]. discriminate.
    + intros Hnil. unfold s. by rewrite Hnil.
Qed.

(** ** User acquisition *)

Lemma acquired_users (data : DataFrame) (m u : Z) :
  u ∈ user_id <$>
      filter (fun r => to_period M (date r) = m) (first_activity data)
  <-> acquired_in_month (rows data) m u.
Proof.
  rewrite list_elem_of_fmap. unfold acquired_in_month, month_index. split.
  - intros ([u' f] & -> & Hr). apply list_elem_of_filter in Hr as [Hm Hr].
    exists f. split; [|done]. by apply elem_of_first_activity.
  - intros (f & Hf & Hm). exists (u, f). split; [done|].
    apply list_elem_of_filter. split; [done|].
    by apply elem_of_first_activity.
Qed.

(** Within a group of first-activity rows every row is another user. *)
Lemma acquired_count (data : DataFrame) (m : Z) :
  nunique (user_id <$>
    filter (fun r => to_period M (date r) = m) (first_activity data))
  = length (filter (fun r => to_period M (date r) = m) (first_activity data)).
Proof.
  rewrite nunique_NoDup; [by rewrite length_fmap|].
  apply NoDup_fmap_filter, NoDup_first_activity.
Qed.

(** C4: for every event log, the per-month counts of new_users_per_month
    add up to the number of distinct user_ids in the log; each bucket
    counts the users whose first activity falls in its month. *)
Theorem new_users_sum (data : DataFrame) :
  distinct_users (active (rows data)) (sum_list (user_acquisition data).*2) /\
  (forall start n,
     (start, n) ∈ user_acquisition data <->
     exists m, start = to_timestamp M m /\ (0 < n)%nat /\
       distinct_users (acquired_in_month (rows data) m) n).
Proof.
  split.
  - assert (sum_list (user_acquisition data).*2
            = nunique (user_id <$> rows data)) as ->.
    { unfold user_acquisition, groupby.
      rewrite <- !list_fmap_compose, sum_list_with_fmap.
      rewrite (sum_list_with_ext _ (fun k =>
        length (filter (fun r => to_period M (date r) = k) (first_activity data)))).
      - rewrite partition_length; [apply length_first_activity|apply NoDup_key_set|].
        intros x Hx. apply elem_of_key_set.
        by apply (list_elem_of_fmap_2 (fun r => to_period M (date r))).
      - intros k. cbn. apply acquired_count. }
    apply distinct_users_nunique. intros u. apply active_iff.
  - intros start n. unfold user_acquisition.
    rewrite <- list_fmap_compose, list_elem_of_fmap. split.
    + intros ([k g] & [= -> ->] & Hg). cbn [fst snd].
      apply elem_of_groupby in Hg as [Hk ->].
      exists k. split; [done|]. split.
      * rewrite acquired_count.
        apply list_elem_of_fmap in Hk as (r & -> & Hr).
        assert (r ∈ filter (fun r' => to_period M (date r') = to_period M (date r))
                      (first_activity data)) as Hin
          by (by apply list_elem_of_filter).
        destruct (filter _ _); [by apply not_elem_of_nil in Hin|simpl; lia].
      * apply distinct_users_nunique. intros u. apply acquired_users.
    + intros (m & -> & Hpos & Hn).
      exists (m, filter (fun r => to_period M (date r) = m) (first_activity data)).
      split.
      * cbn. f_equal. eapply distinct_users_inj; [exact Hn|].
        apply distinct_users_nunique. intros u. apply acquired_users.
      * apply elem_of_groupby. split; [|done].
        destruct Hn as (us & _ & Hus & Hlen).
        destruct us as [|u us]; [simpl in Hlen; lia|].
        destruct (proj1 (Hus u) ltac:(left)) as (f & Hf & Hm).
        apply list_elem_of_fmap. exists (u, f). split; [done|].
        by apply elem_of_first_activity.
Qed.

(** ** Cohort analysis *)

Lemma zip_with_fmap_same {A B C E} (f : B -> C -> E) (g : A -> B) (h : A -> C)
    (l : list A) :
  zip_with f (g <$> l) (h <$> l) = (fun x => f (g x) (h x)) <$> l.
Proof. induction l as [|x l IH]; csimpl; [done|]. by rewrite IH. Qed.

Lemma cohort_column (log : list (Z * Z)) :
  to_period M <$> transform_min log
  = (fun r => cohort_of log (user_id r)) <$> log.
Proof. unfold transform_min. by rewrite <- list_fmap_compose. Qed.

Lemma cohort_period_column (log : list (Z * Z)) :
  zip_with (fun d c => to_period M d - c) (date <$> log)
           (to_period M <$> transform_min log)
  = (fun r => to_period M (date r) - cohort_of log (user_id r)) <$> log.
Proof. by rewrite cohort_column, zip_with_fmap_same. Qed.

Lemma cohort_table (log : list (Z * Z)) :
  zip (zip (to_period M <$> transform_min log)
           (zip_with (fun d c => to_period M d - c) (date <$> log)
                     (to_period M <$> transform_min log)))
      (user_id <$> log)
  = cohort_row log <$> log.
Proof.
  rewrite cohort_period_column, cohort_column.
  by rewrite !zip_with_fmap_same.
Qed.

(** The cohort of an active user is the month of the first activity. *)
Lemma cohort_of_FirstActivity (log : list (Z * Z)) (u f : Z) :
  FirstActivity log u f -> cohort_of log u = month_index f.
Proof.
  intros Hf. unfold cohort_of, month_index. f_equal.
  eapply FirstActivity_inj; [|exact Hf].
  apply series_min_FirstActivity. destruct Hf as [Hf _]. by exists f.
Qed.

Lemma cohort_period_of_nonneg (log : list (Z * Z)) (u d f : Z) :
  (u, d) ∈ log -> FirstActivity log u f -> 0 <= cohort_period_of d f.
Proof.
  intros Hd [_ Hmin]. unfold cohort_period_of, month_index.
  pose proof (CalendarFacts.to_period_M_mono f d (Hmin d Hd)). lia.
Qed.

(** C7: for every event log and every event in it, the CohortPeriod that
    cohort_analysis computes for the event, the difference between the
    month of the event and the month of the first activity of its user,
    is greater than or equal to zero. *)
Theorem cohort_period_nonneg (data : DataFrame) :
  exists cp, CohortPeriod (cohort_analysis data).1 = Some cp /\
    Forall2 (fun r p => exists f, FirstActivity (rows data) (user_id r) f /\
                          p = cohort_period_of (date r) f /\ 0 <= p)
            (rows data) cp.
Proof.
  eexists. split; [reflexivity|].
  rewrite cohort_period_column.
  apply Forall2_fmap_r, Forall_Forall2_diag, Forall_forall.
  intros [u d] Hr. simpl.
  destruct (proj1 (active_FirstActivity (rows data) u)) as [f Hf];
    [by exists d|].
  exists f. split; [done|].
  unfold user_id, date. simpl.
  rewrite (cohort_of_FirstActivity _ _ _ Hf). split; [done|].
  by eapply cohort_period_of_nonneg.
Qed.

(** *** Tables *)

Lemma iloc_col0_tabulate (idx cols : list Z) (c0 : Z) (cell : Z -> Z -> float) :
  iloc_col0 (tabulate idx (c0 :: cols) cell)
  = Ok ((fun c => cell c c0) <$> idx).
Proof.
  unfold iloc_col0, tabulate. cbn [columns values]. f_equal.
  by rewrite <- list_fmap_compose.
Qed.

Lemma divide_tabulate (idx cols : list Z) (cell : Z -> Z -> float)
    (size : Z -> float) :
  divide (tabulate idx cols cell) (size <$> idx)
  = tabulate idx cols (fun c p => fdiv (cell c p) (size c)).
Proof.
  unfold divide, tabulate. cbn [index columns values]. f_equal.
  rewrite zip_with_fmap_same. apply list_fmap_ext. intros _ c _.
  by rewrite <- list_fmap_compose.
Qed.

Lemma round_tabulate (idx cols : list Z) (cell : Z -> Z -> float) :
  round (tabulate idx cols cell)
  = tabulate idx cols (fun c p => round3 (cell c p)).
Proof.
  unfold round, tabulate. cbn [index columns values]. f_equal.
  rewrite <- list_fmap_compose. apply list_fmap_ext. intros _ c _. cbn.
  by rewrite <- list_fmap_compose.
Qed.

Lemma list_find_eq_elem (l : list Z) (x : Z) :
  x ∈ l -> exists i, list_find (fun y => y = x) l = Some (i, x) /\ l !! i = Some x.
Proof.
  intros Hx. destruct (list_find (fun y => y = x) l) as [[i y]|] eqn:Hfind.
  - apply list_find_Some in Hfind as (Hi & -> & _). by exists i.
  - apply list_find_None in Hfind. rewrite Forall_forall in Hfind.
    by destruct (Hfind x Hx).
Qed.

Lemma loc_tabulate (idx cols : list Z) (cell : Z -> Z -> float) (c p : Z) :
  c ∈ idx -> p ∈ cols -> loc (tabulate idx cols cell) c p = Some (cell c p).
Proof.
  intros (i & Hfi & Hi)%list_find_eq_elem (j & Hfj & Hj)%list_find_eq_elem.
  unfold loc, tabulate. cbn [index columns values].
  rewrite Hfi, Hfj. cbn. rewrite list_lookup_fmap, Hi. cbn.
  by rewrite list_lookup_fmap, Hj.
Qed.

Lemma loc_tabulate_None (idx cols : list Z) (cell : Z -> Z -> float) (c p : Z) :
  c ∉ idx \/ p ∉ cols -> loc (tabulate idx cols cell) c p = None.
Proof.
  unfold loc, tabulate. cbn [index columns values]. intros [Hc|Hp].
  - destruct (list_find (fun x => x = c) idx) as [[i y]|] eqn:Hfind; [|done].
    apply list_find_Some in Hfind as (Hi & -> & _).
    destruct Hc. by eapply list_elem_of_lookup_2.
  - destruct (list_find (fun x => x = c) idx) as [[i y]|]; [|done]. cbn.
    destruct (list_find (fun x => x = p) cols) as [[j z]|] eqn:Hfind; [|done].
    apply list_find_Some in Hfind as (Hj & -> & _).
    destruct Hp. by eapply list_elem_of_lookup_2.
Qed.

(** The head of an ascending list of non-negative numbers that holds 0. *)
Lemma sorted_head_zero (l : list Z) :
  StronglySorted Z.le l -> 0 ∈ l -> Forall (Z.le 0) l -> exists l', l = 0 :: l'.
Proof.
  intros Hs H0 Hall. destruct l as [|x l]; [by apply not_elem_of_nil in H0|].
  exists l. f_equal.
  apply StronglySorted_cons in Hs as [Hx _].
  apply Forall_cons in Hall as [Hx0 _].
  apply elem_of_cons in H0 as [->|H0]; [done|].
  rewrite Forall_forall in Hx. specialize (Hx 0 H0). lia.
Qed.

(** *** The (Cohort, CohortPeriod) groups *)

Lemma elem_of_cohort_row (log : list (Z * Z)) (c p u : Z) :
  (c, p, u) ∈ cohort_row log <$> log <-> cohort_active log c p u.
Proof.
  rewrite list_elem_of_fmap. unfold cohort_active, cohort_period_of. split.
  - intros ([u' d] & [= -> -> ->] & Hr). unfold user_id, date. simpl.
    destruct (proj1 (active_FirstActivity log u')) as [f Hf]; [by exists d|].
    exists d, f. by rewrite (cohort_of_FirstActivity _ _ _ Hf).
  - intros (d & f & Hd & Hf & <- & <-). exists (u, d). split; [|done].
    unfold cohort_row, user_id, date. simpl.
    by rewrite (cohort_of_FirstActivity _ _ _ Hf).
Qed.

Lemma cohort_group_users (log : list (Z * Z)) (c p u : Z) :
  u ∈ snd <$> filter (fun t : Z * Z * Z => t.1 = (c, p)) (cohort_row log <$> log)
  <-> cohort_active log c p u.
Proof.
  rewrite <- elem_of_cohort_row, list_elem_of_fmap. split.
  - intros ([[c' p'] u'] & -> & Ht).
    apply list_elem_of_filter in Ht as [[= -> ->] Ht]. done.
  - intros Ht. exists (c, p, u). split; [done|].
    by apply list_elem_of_filter.
Qed.

Lemma cohort_key_present (log : list (Z * Z)) (c p : Z) :
  (c, p) ∈ fst <$> (cohort_row log <$> log) <-> exists u, cohort_active log c p u.
Proof.
  rewrite list_elem_of_fmap. split.
  - intros ([[c' p'] u] & [= -> ->] & Ht). exists u.
    by apply elem_of_cohort_row.
  - intros [u Hu]. exists (c, p, u). split; [done|].
    by apply elem_of_cohort_row.
Qed.

Lemma elem_of_cohort_counts (log : list (Z * Z)) (c p : Z) (n : nat) :
  (c, p, n) ∈ cohort_counts log <->
  (exists u, cohort_active log c p u) /\
  distinct_users (cohort_active log c p) n.
Proof.
  unfold cohort_counts. rewrite list_elem_of_fmap. split.
  - intros ([[c' p'] g] & [= -> -> ->] & Hg). cbn [fst snd].
    apply elem_of_groupby in Hg as [Hk ->].
    split; [by apply cohort_key_present|].
    apply distinct_users_nunique. intros u. apply cohort_group_users.
  - intros [Hk Hn].
    exists (c, p, filter (fun t : Z * Z * Z => t.1 = (c, p)) (cohort_row log <$> log)).
    split.
    + cbn. f_equal. eapply distinct_users_inj; [exact Hn|].
      apply distinct_users_nunique. intros u. apply cohort_group_users.
    + apply elem_of_groupby. split; [|done]. by apply cohort_key_present.
Qed.

Lemma NoDup_cohort_counts (log : list (Z * Z)) : NoDup (cohort_counts log).*1.
Proof.
  unfold cohort_counts. rewrite <- list_fmap_compose.
  erewrite list_fmap_ext; [apply (NoDup_groupby_keys lex_le fst)|].
  by intros i [k g] _.
Qed.

(** Whoever belongs to a cohort is active in it at period 0. *)
Lemma cohort_active_zero (log : list (Z * Z)) (c p u : Z) :
  cohort_active log c p u -> cohort_active log c 0 u.
Proof.
  intros (d & f & Hd & Hf & Hc & Hp). exists f, f.
  split; [by destruct Hf|]. split; [done|]. split; [done|].
  unfold cohort_period_of. lia.
Qed.

Lemma cohort_active_nonneg (log : list (Z * Z)) (c p u : Z) :
  cohort_active log c p u -> 0 <= p.
Proof.
  intros (d & f & Hd & Hf & Hc & <-). by eapply cohort_period_of_nonneg.
Qed.

(** *** Cells of the pivot table *)

Lemma filter_key_nil {K V} `{EqDecision K} (t : list (K * V)) (k : K) :
  k ∉ t.*1 -> filter (fun r => r.1 = k) t = [].
Proof.
  intros Hk. induction t as [|x t IH]; [done|].
  rewrite filter_cons. rewrite fmap_cons, not_elem_of_cons in Hk.
  destruct Hk as [Hx Hk]. rewrite decide_False by done. by apply IH.
Qed.

Lemma filter_key_singleton {K V} `{EqDecision K} (t : list (K * V)) (k : K) (v : V) :
  NoDup t.*1 -> (k, v) ∈ t -> filter (fun r => r.1 = k) t = [(k, v)].
Proof.
  induction t as [|x t IH]; intros Hnd Hin; [by apply not_elem_of_nil in Hin|].
  rewrite fmap_cons in Hnd. apply NoDup_cons in Hnd as [Hx Hnd].
  rewrite filter_cons. apply elem_of_cons in Hin as [<-|Hin].
  - rewrite decide_True by done. f_equal. by apply filter_key_nil.
  - rewrite decide_False; [by apply IH|].
    intros Heq. apply Hx. rewrite Heq.
    by apply (list_elem_of_fmap_2 fst _ (k, v)).
Qed.

Lemma pivot_cell_present (t : list (Z * Z * nat)) (c p : Z) (n : nat) :
  NoDup t.*1 -> (c, p, n) ∈ t -> pivot_cell t c p = fin (inject_Z (Z.of_nat n)).
Proof.
  intros Hnd Hin. unfold pivot_cell.
  rewrite (filter_key_singleton t (c, p) n Hnd Hin). cbn.
  rewrite Z.add_0_r. f_equal. apply Qcanon.Qred_identity. cbn.
  apply Z.gcd_1_r.
Qed.

Lemma pivot_cell_absent (t : list (Z * Z * nat)) (c p : Z) :
  (c, p) ∉ t.*1 -> pivot_cell t c p = nan.
Proof.
  intros Hk. unfold pivot_cell. by rewrite (filter_key_nil t (c, p) Hk).
Qed.

(** Dividing two counts as floats is Python's true division. *)
Lemma fdiv_counts (n k : nat) :
  (0 < k)%nat ->
  Ok (fdiv (fin (inject_Z (Z.of_nat n))) (fin (inject_Z (Z.of_nat k))))
  = truediv n k.
Proof.
  destruct k as [|k]; [lia|intros _]. unfold fdiv, truediv.
  assert (Z.pos (Pos.of_nat (S k)) = Z.of_nat (S k)) as Hpos
    by (rewrite <- Pos.of_nat_succ, Zpos_P_of_succ_nat; lia).
  destruct (Qeq_bool (inject_Z (Z.of_nat (S k))) 0) eqn:Hz.
  - apply Qeq_bool_iff in Hz. unfold Qeq in Hz. cbn in Hz. lia.
  - do 2 f_equal. apply Qred_complete.
    rewrite (Qmake_Qdiv (Z.of_nat n) (Pos.of_nat (S k))). by rewrite Hpos.
Qed.

(** *** The retention matrix *)

Lemma cohort_analysis_result (data : DataFrame) :
  (cohort_analysis data).2
  = (cohort_size ← iloc_col0 (pivot_table (cohort_counts (rows data)));
     mret (round (divide (pivot_table (cohort_counts (rows data))) cohort_size))).
Proof.
  unfold cohort_analysis, cohort_counts. cbn [snd]. by rewrite cohort_table.
Qed.

Lemma distinct_users_pos (P : Z -> Prop) (n : nat) (u : Z) :
  P u -> distinct_users P n -> (0 < n)%nat.
Proof.
  intros Hu (us & _ & Hus & <-). apply Hus in Hu.
  destruct us; [by apply not_elem_of_nil in Hu|simpl; lia].
Qed.

Lemma cohort_counts_total (log : list (Z * Z)) (c p : Z) :
  (exists u, cohort_active log c p u) ->
  exists n, (c, p, n) ∈ cohort_counts log /\ (0 < n)%nat /\
    distinct_users (cohort_active log c p) n.
Proof.
  intros [u Hu].
  assert (distinct_users (cohort_active log c p)
    (nunique (snd <$> filter (fun t : Z * Z * Z => t.1 = (c, p))
                             (cohort_row log <$> log)))) as Hn
    by (apply distinct_users_nunique; intros v; apply cohort_group_users).
  eexists. split; [|split; [|exact Hn]].
  - apply elem_of_cohort_counts. split; [by exists u|exact Hn].
  - by eapply distinct_users_pos.
Qed.

Lemma cohort_index (log : list (Z * Z)) (c : Z) :
  c ∈ merge_sort Z.le (unique ((fun r : Z * Z * nat => r.1.1) <$> cohort_counts log))
  <-> exists u, cohort_active log c 0 u.
Proof.
  unfold unique. rewrite elem_of_key_set, list_elem_of_fmap. split.
  - intros ([[c' p] n] & -> & Hin). cbn.
    apply elem_of_cohort_counts in Hin as [[u Hu] _].
    exists u. by eapply cohort_active_zero.
  - intros Hu. destruct (cohort_counts_total log c 0 Hu) as (n & Hin & _).
    by exists (c, 0, n).
Qed.

Lemma cohort_columns (log : list (Z * Z)) (p : Z) :
  p ∈ merge_sort Z.le (unique ((fun r : Z * Z * nat => r.1.2) <$> cohort_counts log))
  <-> exists c u, cohort_active log c p u.
Proof.
  unfold unique. rewrite elem_of_key_set, list_elem_of_fmap. split.
  - intros ([[c p'] n] & -> & Hin). cbn.
    apply elem_of_cohort_counts in Hin as [[u Hu] _]. by exists c, u.
  - intros (c & u & Hu).
    destruct (cohort_counts_total log c p) as (n & Hin & _); [by exists u|].
    by exists (c, p, n).
Qed.

(** Period 0 is the first column of the pivot table. *)
Lemma cohort_columns_head (log : list (Z * Z)) :
  log <> [] ->
  exists cols,
    merge_sort Z.le (unique ((fun r : Z * Z * nat => r.1.2) <$> cohort_counts log))
    = 0 :: cols.
Proof.
  intros Hne. apply sorted_head_zero.
  - apply StronglySorted_merge_sort; apply _.
  - apply cohort_columns. destruct log as [|[u d] log]; [done|].
    destruct (proj1 (active_FirstActivity ((u, d) :: log) u)) as [f Hf];
      [exists d; by left|].
    exists (month_index f), u, f, f.
    split; [by destruct Hf|]. split; [done|]. split; [done|].
    unfold cohort_period_of. lia.
  - apply Forall_forall. intros p (c & u & Hu)%cohort_columns.
    by eapply cohort_active_nonneg.
Qed.

(** C6: for every non-empty event log, the cohort retention matrix gives
    each (Cohort, CohortPeriod) entry the number of distinct users of the
    cohort active at that period offset divided by the cohort size (the
    number of distinct users at CohortPeriod 0), rounded to 3 decimal
    places; the rows are the cohorts present, and the entry of every
    cohort at CohortPeriod 0 is exactly 1.0. *)
Theorem cohort_retention_matrix (data : DataFrame) :
  rows data <> [] ->
  exists mat, (cohort_analysis data).2 = Ok mat /\
    (forall c, c ∈ index mat <-> exists u, cohort_active (rows data) c 0 u) /\
    (forall c p, (exists u, cohort_active (rows data) c p u) ->
       exists n k ratio,
         distinct_users (cohort_active (rows data) c p) n /\
         distinct_users (cohort_active (rows data) c 0) k /\
         truediv n k = Ok ratio /\
         loc mat c p = Some (round3 ratio)) /\
    (forall c, c ∈ index mat -> loc mat c 0 = Some (fin 1)).
Proof.
  intros Hne. rewrite cohort_analysis_result. unfold pivot_table.
  destruct (cohort_columns_head (rows data) Hne) as [cols Hcols].
  set (t := cohort_counts (rows data)) in *.
  set (idx := merge_sort Z.le (unique ((fun r : Z * Z * nat => r.1.1) <$> t))).
  rewrite Hcols, iloc_col0_tabulate. cbn [mbind result_bind mret result_ret].
  rewrite divide_tabulate, round_tabulate.
  eexists. split; [reflexivity|].
  assert (forall c p, (exists u, cohort_active (rows data) c p u) ->
    exists n, (0 < n)%nat /\ distinct_users (cohort_active (rows data) c p) n /\
      pivot_cell t c p = fin (inject_Z (Z.of_nat n))) as Hcell.
  { intros c p Hu.
    destruct (cohort_counts_total (rows data) c p Hu) as (n & Hin & Hpos & Hn).
    exists n. split; [done|]. split; [done|].
    apply pivot_cell_present; [apply NoDup_cohort_counts|done]. }
  split; [|split].
  - intros c. cbn [index tabulate]. apply cohort_index.
  - intros c p [u Hu].
    destruct (Hcell c p) as (n & Hnpos & Hn & Hcp); [by exists u|].
    destruct (Hcell c 0) as (k & Hkpos & Hk & Hc0);
      [exists u; by eapply cohort_active_zero|].
    exists n, k, (fdiv (pivot_cell t c p) (pivot_cell t c 0)).
    split; [done|]. split; [done|]. split.
    + rewrite Hcp, Hc0. symmetry. by apply fdiv_counts.
    + apply loc_tabulate.
      * apply cohort_index. exists u. by eapply cohort_active_zero.
      * rewrite <- Hcols. apply cohort_columns. by exists c, u.
  - intros c Hc. cbn [index tabulate] in Hc.
    rewrite loc_tabulate; [|done|by left].
    apply cohort_index in Hc.
    destruct (Hcell c 0 Hc) as (k & Hkpos & Hk & Hc0).
    pose proof (fdiv_counts k k Hkpos) as Hdiv.
    rewrite truediv_same in Hdiv by done.
    assert (fdiv (fin (inject_Z (Z.of_nat k))) (fin (inject_Z (Z.of_nat k)))
            = fin 1) as Hone by congruence.
    rewrite Hc0, Hone. done.
Qed.

Lemma cohort_retention_matrix_witness :
  rows log1 <> [] /\
  exists mat, (cohort_analysis log1).2 = Ok mat /\
    (forall c, c ∈ index mat <-> exists u, cohort_active (rows log1) c 0 u) /\
    (forall c p, (exists u, cohort_active (rows log1) c p u) ->
       exists n k ratio,
         distinct_users (cohort_active (rows log1) c p) n /\
         distinct_users (cohort_active (rows log1) c 0) k /\
         truediv n k = Ok ratio /\
         loc mat c p = Some (round3 ratio)) /\
    (forall c, c ∈ index mat -> loc mat c 0 = Some (fin 1)).
Proof. split; [done|]. apply cohort_retention_matrix. done. Defined.

(** ** Frames: what the metric functions leave behind *)

(** C3, as stated, fails: cohort_retention and monthly_churn change the
    frame they are given. *)
Lemma metrics_modify_frame :
  (cohort_analysis log1).1 <> log1 /\ (calculate_monthly_churn log1).1 <> log1.
Proof. split; discriminate. Qed.

(** C3, amended: no metric computation changes the events (the user_id
    and date columns) of the frame it is given, and every result depends
    on these events only; cohort_retention assigns the columns Cohort and
    CohortPeriod, monthly_churn (and average_churn through it) assigns the
    column Month, and neither touches any other column. *)
Theorem metrics_preserve_events (data : DataFrame) :
  (rows (cohort_analysis data).1 = rows data /\
   Month (cohort_analysis data).1 = Month data /\
   Cohort (cohort_analysis data).1
     = Some ((fun r => cohort_of (rows data) (user_id r)) <$> rows data) /\
   CohortPeriod (cohort_analysis data).1
     = Some ((fun r => to_period M (date r) - cohort_of (rows data) (user_id r))
               <$> rows data)) /\
  (rows (calculate_monthly_churn data).1 = rows data /\
   Month (calculate_monthly_churn data).1
     = Some ((fun r => to_period M (date r)) <$> rows data) /\
   Cohort (calculate_monthly_churn data).1 = Cohort data /\
   CohortPeriod (calculate_monthly_churn data).1 = CohortPeriod data) /\
  (calculate_average_churn data).1 = (calculate_monthly_churn data).1 /\
  ((cohort_analysis data).2 = (cohort_analysis (load_data (rows data))).2 /\
   (calculate_monthly_churn data).2
     = (calculate_monthly_churn (load_data (rows data))).2 /\
   (calculate_average_churn data).2
     = (calculate_average_churn (load_data (rows data))).2 /\
   calculate_retention data = calculate_retention (load_data (rows data)) /\
   (forall dates, calculate_a30 data dates
      = calculate_a30 (load_data (rows data)) dates) /\
   (forall period, calculate_active_users data period
      = calculate_active_users (load_data (rows data)) period) /\
   user_acquisition data = user_acquisition (load_data (rows data))).
Proof.
  split; [|split; [|split]].
  - cbn. by rewrite cohort_period_column, cohort_column.
  - done.
  - done.
  - repeat split.
Qed.

(** ** Monthly churn *)

Lemma calculate_monthly_churn_result (data : DataFrame) :
  (calculate_monthly_churn data).2
  = (churned_users ←
       mapM (churn_of (rows data))
            (merge_sort Z.le (removelast (monthly_users (rows data)).*1));
     idx ← dict_index_to_timestamp churned_users.*1;
     mret (zip idx churned_users.*2)).
Proof.
  unfold calculate_monthly_churn, monthly_users, churn_of. cbn [snd].
  by rewrite zip_with_fmap_same.
Qed.

(** *** Reading a series *)

Lemma series_getitem_Ok {V} (s : list (Z * V)) (k : Z) (v : V) :
  NoDup s.*1 -> (k, v) ∈ s -> series_getitem s k = Ok v.
Proof.
  intros Hnd Hin. unfold series_getitem.
  destruct (list_find (fun kv => kv.1 = k) s) as [[i [k' v']]|] eqn:Hfind.
  - apply list_find_Some in Hfind as (Hi & Hk & _). simpl in Hk. subst k'.
    apply list_elem_of_lookup_2 in Hi. simpl. f_equal.
    assert ((k, v') ∈ filter (fun r : Z * V => r.1 = k) s) as Hin'
      by (by apply list_elem_of_filter).
    rewrite (filter_key_singleton s k v Hnd Hin) in Hin'.
    by apply list_elem_of_singleton in Hin' as [= ->].
  - apply list_find_None in Hfind. rewrite Forall_forall in Hfind.
    by destruct (Hfind _ Hin).
Qed.

Lemma series_getitem_KeyError {V} (s : list (Z * V)) (k : Z) :
  k ∉ s.*1 -> series_getitem s k = Raise KeyError.
Proof.
  intros Hk. unfold series_getitem.
  destruct (list_find (fun kv => kv.1 = k) s) as [[i [k' v']]|] eqn:Hfind;
    [|done].
  apply list_find_Some in Hfind as (Hi & Hk' & _). simpl in Hk'. subst k'.
  destruct Hk. apply list_elem_of_lookup_2 in Hi.
  by apply (list_elem_of_fmap_2 fst _ (k, v')).
Qed.

Lemma series_getitem_Raise {V} (s : list (Z * V)) (k : Z) (e : exn) :
  series_getitem s k = Raise e -> e = KeyError.
Proof.
  unfold series_getitem.
  destruct (list_find _ s) as [[i kv]|]; [done|]. by intros [= <-].
Qed.

(** *** The loop over the months *)

Lemma mapM_Ok {A B} (f : A -> result B) (g : A -> B) (l : list A) :
  (forall x, x ∈ l -> f x = Ok (g x)) -> mapM f l = Ok (g <$> l).
Proof.
  induction l as [|x l IH]; intros Hf; [done|]. cbn.
  rewrite (Hf x) by left. cbn. rewrite IH; [done|].
  intros y Hy. apply Hf. by right.
Qed.

Lemma mapM_Raise {A B} (f : A -> result B) (l : list A) (x : A) (e : exn) :
  x ∈ l -> f x = Raise e ->
  (forall y e', f y = Raise e' -> e' = e) -> mapM f l = Raise e.
Proof.
  intros Hx Hfx Honly. induction l as [|a l IH]; [by apply not_elem_of_nil in Hx|].
  cbn. destruct (f a) as [b|e'] eqn:Hfa; cbn.
  - apply elem_of_cons in Hx as [->|Hx]; [congruence|]. by rewrite IH.
  - f_equal. by eapply Honly.
Qed.

Lemma mapM_Raise_only {A B} (f : A -> result B) (l : list A) (e0 e : exn) :
  (forall y e', f y = Raise e' -> e' = e0) -> mapM f l = Raise e -> e = e0.
Proof.
  intros Honly. induction l as [|a l IH]; [done|]. cbn.
  destruct (f a) as [b|e'] eqn:Hfa; cbn.
  - destruct (mapM f l) as [k|e']; cbn; [done|]. intros [= <-]. by apply IH.
  - intros [= <-]. by eapply Honly.
Qed.

Lemma sublist_removelast {A} (l : list A) : removelast l `sublist_of` l.
Proof.
  induction l as [|x [|y l] IH]; [done|apply sublist_nil_l|].
  change (removelast (x :: y :: l)) with (x :: removelast (y :: l)).
  by apply sublist_skip.
Qed.

(** All but the last element of a strictly ascending list. *)
Lemma elem_of_removelast_sorted (l : list Z) (m : Z) :
  StronglySorted Z.lt l ->
  m ∈ removelast l <-> m ∈ l /\ exists m', m' ∈ l /\ m < m'.
Proof.
  induction 1 as [|x l Hs IH Hx]; [cbn; split; [by intros ?%not_elem_of_nil|by intros [?%not_elem_of_nil _]]|].
  rewrite Forall_forall in Hx.
  destruct l as [|y l].
  - cbn. split; [by intros ?%not_elem_of_nil|].
    intros [->%list_elem_of_singleton (m' & ->%list_elem_of_singleton & Hlt)]. lia.
  - change (removelast (x :: y :: l)) with (x :: removelast (y :: l)).
    rewrite elem_of_cons, IH. split.
    + intros [->|[Hm (m' & Hm' & Hlt)]].
      * split; [by left|]. exists y. split; [right; by left|].
        apply Hx. by left.
      * split; [by right|]. exists m'. split; [by right|done].
    + intros [Hm (m' & Hm' & Hlt)].
      apply elem_of_cons in Hm as [->|Hm]; [by left|right].
      split; [done|]. exists m'. split; [|done].
      apply elem_of_cons in Hm' as [->|Hm']; [|done].
      specialize (Hx m Hm). lia.
Qed.

(** *** The series [monthly_users] *)

Lemma month_rows_keys (log : list (Z * Z)) :
  fst <$> (month_row <$> log) = (fun r => to_period M (date r)) <$> log.
Proof. by rewrite <- list_fmap_compose. Qed.

Lemma monthly_users_keys (log : list (Z * Z)) :
  (monthly_users log).*1
  = merge_sort Z.le (unique ((fun r => to_period M (date r)) <$> log)).
Proof.
  unfold monthly_users, unique. rewrite <- month_rows_keys.
  rewrite <- (groupby_keys Z.le fst), <- list_fmap_compose.
  apply list_fmap_ext. by intros i [k g] _.
Qed.

Lemma elem_of_monthly_users_keys (log : list (Z * Z)) (m : Z) :
  m ∈ (monthly_users log).*1 <-> exists u, active_in_period log M m u.
Proof.
  rewrite monthly_users_keys. unfold unique.
  by rewrite elem_of_key_set, bucket_present.
Qed.

Lemma NoDup_monthly_users (log : list (Z * Z)) : NoDup (monthly_users log).*1.
Proof. rewrite monthly_users_keys. apply NoDup_key_set. Qed.

Lemma sorted_monthly_users (log : list (Z * Z)) :
  StronglySorted Z.lt (monthly_users log).*1.
Proof.
  apply StronglySorted_le_lt; [|apply NoDup_monthly_users].
  rewrite monthly_users_keys. apply StronglySorted_merge_sort; apply _.
Qed.

Lemma elem_of_monthly_users (log : list (Z * Z)) (m : Z) :
  (exists u, active_in_period log M m u) ->
  (m, month_users log m) ∈ monthly_users log.
Proof.
  intros Hm. unfold monthly_users. apply list_elem_of_fmap.
  exists (m, filter (fun t : Z * Z => t.1 = m) (month_row <$> log)).
  split; [done|]. apply elem_of_groupby. split; [|done].
  rewrite month_rows_keys. by apply bucket_present.
Qed.

Lemma elem_of_month_users (log : list (Z * Z)) (m u : Z) :
  u ∈ month_users log m <-> active_in_period log M m u.
Proof.
  unfold month_users. rewrite elem_of_unique, list_elem_of_fmap.
  unfold active_in_period. split.
  - intros ([m' u'] & -> & Ht). apply list_elem_of_filter in Ht as [Hm Ht].
    simpl in Hm. subst m'.
    apply list_elem_of_fmap in Ht as ([u d] & [= -> ->] & Hr). by exists d.
  - intros (d & Hr & <-). exists (to_period M d, u). split; [done|].
    apply list_elem_of_filter. split; [done|].
    apply list_elem_of_fmap. by exists (u, d).
Qed.

(** The number the loop stores is the number of users who churn. *)
Lemma churn_count_spec (log : list (Z * Z)) (m : Z) :
  distinct_users (churned log m) (churn_count log m).
Proof.
  unfold churn_count.
  exists (elements ((list_to_set (month_users log m) : gset Z)
                      ∖ list_to_set (month_users log (m + 1)))).
  split; [apply NoDup_elements|]. split; [|done].
  intros u. rewrite elem_of_elements, elem_of_difference.
  rewrite !elem_of_list_to_set, !elem_of_month_users. done.
Qed.

Lemma churn_of_Ok (log : list (Z * Z)) (m : Z) :
  (exists u, active_in_period log M m u) ->
  (exists u, active_in_period log M (m + 1) u) ->
  churn_of log m = Ok (m, churn_count log m).
Proof.
  intros Hm Hnext. unfold churn_of.
  rewrite (series_getitem_Ok _ m (month_users log m))
    by (apply NoDup_monthly_users || by apply elem_of_monthly_users).
  cbn.
  rewrite (series_getitem_Ok _ (m + 1) (month_users log (m + 1)))
    by (apply NoDup_monthly_users || by apply elem_of_monthly_users).
  done.
Qed.

Lemma churn_of_KeyError (log : list (Z * Z)) (m : Z) :
  (exists u, active_in_period log M m u) ->
  ~ (exists u, active_in_period log M (m + 1) u) ->
  churn_of log m = Raise KeyError.
Proof.
  intros Hm Hnext. unfold churn_of.
  rewrite (series_getitem_Ok _ m (month_users log m))
    by (apply NoDup_monthly_users || by apply elem_of_monthly_users).
  cbn. rewrite series_getitem_KeyError; [done|].
  by rewrite elem_of_monthly_users_keys.
Qed.

Lemma churn_of_Raise (log : list (Z * Z)) (m : Z) (e : exn) :
  churn_of log m = Raise e -> e = KeyError.
Proof.
  unfold churn_of.
  destruct (series_getitem (monthly_users log) m) as [cur|e1] eqn:H1; cbn.
  - destruct (series_getitem (monthly_users log) (m + 1)) as [next|e2] eqn:H2;
      cbn; [done|].
    intros [= <-]. by eapply series_getitem_Raise.
  - intros [= <-]. by eapply series_getitem_Raise.
Qed.

(** The months the loop visits. *)
Lemma elem_of_loop_months (log : list (Z * Z)) (m : Z) :
  m ∈ merge_sort Z.le (removelast (monthly_users log).*1)
  <-> month_before_last log m.
Proof.
  rewrite merge_sort_Permutation.
  rewrite (elem_of_removelast_sorted _ _ (sorted_monthly_users log)).
  unfold month_before_last. rewrite elem_of_monthly_users_keys.
  split; intros [Hm Hlast]; (split; [done|]).
  - destruct Hlast as (m' & [u Hu]%elem_of_monthly_users_keys & Hlt).
    by exists m', u.
  - destruct Hlast as (m' & u & Hlt & Hu). exists m'. split; [|done].
    apply elem_of_monthly_users_keys. by exists u.
Qed.

(** *** What [calculate_monthly_churn] returns *)

(** A month with events, not the last one, whose next calendar month has
    no events: the lookup [monthly_users[month + 1]] raises. *)
Lemma monthly_churn_gap (data : DataFrame) (m : Z) :
  month_before_last (rows data) m ->
  ~ (exists u, active_in_period (rows data) M (m + 1) u) ->
  (calculate_monthly_churn data).2 = Raise KeyError.
Proof.
  intros Hm Hgap. rewrite calculate_monthly_churn_result.
  rewrite (mapM_Raise _ _ m KeyError); [done|by apply elem_of_loop_months| |].
  - apply churn_of_KeyError; [by destruct Hm|done].
  - intros y e. apply churn_of_Raise.
Qed.

(** X12: At least two months with events and no gap between them: the series
    holds, for every month but the last, the start of the month and the
    number of users active in it and not in the next month. *)
Lemma monthly_churn_no_gap (data : DataFrame) :
  (exists m, month_before_last (rows data) m) ->
  (forall m, month_before_last (rows data) m ->
     exists u, active_in_period (rows data) M (m + 1) u) ->
  exists series, (calculate_monthly_churn data).2 = Ok series /\
    StronglySorted Z.lt series.*1 /\
    (forall start n, (start, n) ∈ series <->
       exists m, month_before_last (rows data) m /\
         start = to_timestamp M m /\
         distinct_users (churned (rows data) m) n).
Proof.
  intros [m0 Hm0] Hnogap. rewrite calculate_monthly_churn_result.
  set (months := merge_sort Z.le (removelast (monthly_users (rows data)).*1)).
  assert (forall m, m ∈ months <-> month_before_last (rows data) m) as Hmonths
    by (intros m; apply elem_of_loop_months).
  rewrite (mapM_Ok _ (fun m => (m, churn_count (rows data) m))).
  2:{ intros m Hm%Hmonths. apply churn_of_Ok; [by destruct Hm|by apply Hnogap]. }
  cbn [mbind result_bind]. rewrite <- !list_fmap_compose.
  assert ((fst ∘ (fun m => (m, churn_count (rows data) m))) <$> months = months)
    as -> by (rewrite <- (list_fmap_id months) at 2; by apply list_fmap_ext).
  unfold dict_index_to_timestamp.
  destruct months as [|m1 months'] eqn:Heq.
  { apply Hmonths in Hm0. by apply not_elem_of_nil in Hm0. }
  rewrite <- Heq in *. cbn [mbind result_bind mret result_ret].
  rewrite zip_with_fmap_same. eexists. split; [reflexivity|]. split.
  - rewrite <- list_fmap_compose.
    apply (StronglySorted_fmap _ Z.lt).
    + intros p q Hpq. by apply PeriodFacts.to_timestamp_mono.
    + apply StronglySorted_le_lt.
      * apply StronglySorted_merge_sort; apply _.
      * unfold months. rewrite merge_sort_Permutation.
        eapply sublist_NoDup; [apply (NoDup_monthly_users (rows data))|].
        apply sublist_removelast.
  - intros start n. rewrite list_elem_of_fmap. split.
    + intros (m & [= -> ->] & Hm%Hmonths). exists m.
      split; [done|]. split; [done|]. apply churn_count_spec.
    + intros (m & Hm & -> & Hn). exists m. split; [|by apply Hmonths].
      cbn. f_equal. eapply distinct_users_inj; [exact Hn|].
      apply churn_count_spec.
Qed.

(** A single month with events (or none): [churned_users] stays empty
    and the conversion of its index fails. *)
Lemma monthly_churn_one_month (data : DataFrame) :
  ~ (exists m, month_before_last (rows data) m) ->
  mapM (churn_of (rows data))
       (merge_sort Z.le (removelast (monthly_users (rows data)).*1)) = Ok [] /\
  (calculate_monthly_churn data).2 = Raise AttributeError.
Proof.
  intros Hone. rewrite calculate_monthly_churn_result.
  destruct (merge_sort Z.le (removelast (monthly_users (rows data)).*1))
    as [|m months] eqn:Heq; [done|].
  destruct Hone. exists m. apply elem_of_loop_months. rewrite Heq. by left.
Qed.

(** The only failures of [calculate_monthly_churn]. *)
Lemma monthly_churn_failures (data : DataFrame) (e : exn) :
  (calculate_monthly_churn data).2 = Raise e ->
  e = KeyError \/ e = AttributeError.
Proof.
  rewrite calculate_monthly_churn_result.
  destruct (mapM _ _) as [churned_users|e'] eqn:Hloop; cbn.
  - unfold dict_index_to_timestamp. destruct (churned_users.*1); cbn.
    + intros [= <-]. by right.
    + done.
  - intros [= <-]. left. eapply mapM_Raise_only; [|exact Hloop].
    intros y e0. apply churn_of_Raise.
Qed.

(** C1: on the log {(1, 2023-01-05), (1, 2023-03-10)} the month 2023-01
    holds events, is not the last month, and its next calendar month
    2023-02 holds none; one user churns after 2023-01, so churn(2023-01)
    should be 1, but monthly_churn fails: the lookup of 2023-02 in
    monthly_users raises KeyError. *)
Theorem monthly_churn_gap_KeyError :
  month_before_last (rows log_gap) 636 /\
  ~ (exists u, active_in_period (rows log_gap) M 637 u) /\
  distinct_users (churned (rows log_gap) 636) 1 /\
  (calculate_monthly_churn log_gap).2 = Raise KeyError.
Proof.
  assert (month_before_last (rows log_gap) 636) as Hm.
  { split.
    - exists 1, (Timestamp 2023 1 5). split; [by left|done].
    - exists 638, 1. split; [lia|].
      exists (Timestamp 2023 3 10). split; [right; by left|done]. }
  assert (~ (exists u, active_in_period (rows log_gap) M 637 u)) as Hgap.
  { intros (u & d & Hin & Hd). cbn in Hin.
    rewrite !elem_of_cons in Hin.
    destruct Hin as [[= -> ->]|[[= -> ->]|Hin]];
      [vm_compute in Hd; discriminate..|by apply not_elem_of_nil in Hin]. }
  split; [done|]. split; [done|]. split.
  - assert (churn_count (rows log_gap) 636 = 1%nat) as <-
      by (vm_compute; reflexivity).
    apply churn_count_spec.
  - by apply (monthly_churn_gap log_gap 636).
Qed.

(** ** Average churn *)

(** C2, as stated, fails: on the single-month log {(1, 2023-01-01)} the
    churn loop stores nothing, and average_churn does not fail with a
    DivisionUndefined condition. *)
Lemma average_churn_single_month :
  mapM (churn_of (rows log_single))
       (merge_sort Z.le (removelast (monthly_users (rows log_single)).*1))
    = Ok [] /\
  (calculate_average_churn log_single).2 <> Raise ZeroDivisionError.
Proof. split; [vm_compute; reflexivity|vm_compute; discriminate]. Qed.

(** C2, amended: for every input, average_churn never fails with a
    DivisionUndefined condition, since it performs no division of its
    own: when monthly_churn returns a series it returns the library mean
    of the values of the series, and when monthly_churn fails it fails
    with the same condition. *)
Theorem average_churn_no_division_error (data : DataFrame) :
  (calculate_average_churn data).2 <> Raise ZeroDivisionError /\
  match (calculate_monthly_churn data).2 with
  | Ok series =>
      (calculate_average_churn data).2
      = Ok (series_mean ((fun e : Z * nat => Z.of_nat e.2) <$> series))
  | Raise e => (calculate_average_churn data).2 = Raise e
  end.
Proof.
  pose proof (monthly_churn_failures data) as Hfail.
  unfold calculate_average_churn.
  destruct (calculate_monthly_churn data) as [data' [series|e]]; cbn in *.
  - split; done.
  - split; [|done]. intros [= ->].
    by destruct (Hfail ZeroDivisionError eq_refl).
Qed.

(** * Further properties of the metric functions *)

(** ** Periods and their start dates *)

Module PeriodRoundTrip.
Import Calendar CalendarFacts.

(** The civil date of a day number is a date of that day number. *)
Lemma days_from_civil_from_days z :
  days_from_civil (year z) (month z) (day z) = z.
Proof.
  unfold year, month, day, civil_from_days. cbn [fst snd].
  set (z' := z + 719468).
  set (doe := z' mod 146097).
  assert (0 <= doe < 146097) as Hdoe by (apply Z.mod_pos_bound; lia).
  destruct (doy_bounds doe Hdoe) as [Hy Hd].
  pose proof (mp_bounds _ Hd) as Hmp.
  set (yoe := yoe_of doe) in *. set (doy := doy_of doe) in *.
  set (mp := mp_of doy) in *.
  assert (doe = 365 * yoe + yoe / 4 - yoe / 100 + doy) as Hdoe'
    by (unfold doy, doy_of; fold yoe; lia).
  assert (z' = 146097 * (z' / 146097) + doe) as Hz by (apply Z.div_mod; lia).
  unfold days_from_civil.
  destruct (Z.ltb_spec mp 10).
  - destruct (Z.leb_spec (mp + 3) 2); [lia|].
    destruct (Z.ltb_spec 2 (mp + 3)); [|lia].
    replace ((yoe + z' / 146097 * 400) / 400) with (z' / 146097)
      by (Z.div_mod_to_equations; lia).
    unfold z' in *. Z.div_mod_to_equations. lia.
  - destruct (Z.leb_spec (mp - 9) 2); [|lia].
    destruct (Z.ltb_spec 2 (mp - 9)); [lia|].
    replace ((yoe + z' / 146097 * 400 + 1 - 1) / 400) with (z' / 146097)
      by (Z.div_mod_to_equations; lia).
    unfold z' in *. Z.div_mod_to_equations. lia.
Qed.

Lemma month_range z : 1 <= month z <= 12.
Proof.
  unfold month, civil_from_days. cbn [fst snd].
  set (doe := (z + 719468) mod 146097).
  assert (0 <= doe < 146097) as Hdoe by (apply Z.mod_pos_bound; lia).
  destruct (doy_bounds doe Hdoe) as [_ Hd].
  pose proof (mp_bounds _ Hd) as Hmp.
  destruct (Z.ltb_spec (mp_of (doy_of doe)) 10); lia.
Qed.

Lemma day_pos z : 1 <= day z.
Proof.
  unfold day, civil_from_days. cbn [fst snd].
  set (doe := (z + 719468) mod 146097).
  assert (0 <= doe < 146097) as Hdoe by (apply Z.mod_pos_bound; lia).
  destruct (doy_bounds doe Hdoe) as [_ Hd].
  unfold mp_of. Z.div_mod_to_equations. lia.
Qed.

Lemma days_from_civil_day y m d :
  days_from_civil y m d = days_from_civil y m 1 + (d - 1).
Proof. unfold days_from_civil. lia. Qed.

Lemma yoe_of_start yoe doy :
  0 <= yoe <= 399 -> 0 <= doy <= 337 ->
  yoe_of (yoe * 365 + yoe / 4 - yoe / 100 + doy) = yoe.
Proof. intros Hy Hd. unfold yoe_of. Z.div_mod_to_equations. lia. Qed.

(** The first day of a month reads back as that month. *)
Lemma civil_of_month_start y m :
  1 <= m <= 12 -> civil_from_days (days_from_civil y m 1) = (y, m, 1).
Proof.
  intros Hm. unfold days_from_civil.
  set (y' := if m <=? 2 then y - 1 else y).
  set (mp := if 2 <? m then m - 3 else m + 9).
  assert (0 <= mp <= 11) as Hmp by (unfold mp; destruct (Z.ltb_spec 2 m); lia).
  set (era := y' / 400). set (yoe := y' - era * 400).
  assert (0 <= yoe <= 399) as Hyoe
    by (unfold yoe, era; Z.div_mod_to_equations; lia).
  set (doy := (153 * mp + 2) / 5 + 1 - 1).
  assert (0 <= doy <= 337) as Hdoy by (unfold doy; Z.div_mod_to_equations; lia).
  set (doe := yoe * 365 + yoe / 4 - yoe / 100 + doy).
  assert (0 <= doe < 146097) as Hdoe
    by (unfold doe; Z.div_mod_to_equations; lia).
  unfold civil_from_days.
  replace (era * 146097 + doe - 719468 + 719468) with (doe + era * 146097)
    by lia.
  rewrite Z.div_add, Z.mod_add by lia.
  rewrite Z.div_small, Z.mod_small by lia. rewrite Z.add_0_l.
  assert (yoe_of doe = yoe) as Hy by (apply yoe_of_start; lia).
  assert (doy_of doe = doy) as Hd
    by (unfold doy_of; rewrite Hy; unfold doe; lia).
  cbv zeta. rewrite Hy, Hd.
  assert (mp_of doy = mp) as Hm'
    by (unfold mp_of, doy; Z.div_mod_to_equations; lia).
  rewrite Hm'.
  assert (yoe + era * 400 = y') as -> by (unfold yoe; lia).
  unfold doy, mp, y'.
  destruct (Z.ltb_spec 2 m).
  - destruct (Z.ltb_spec (m - 3) 10); [|lia].
    destruct (Z.leb_spec (m - 3 + 3) 2); [lia|].
    destruct (Z.leb_spec m 2); [lia|]. f_equal; [f_equal; lia|lia].
  - destruct (Z.ltb_spec (m + 9) 10); [lia|].
    destruct (Z.leb_spec (m + 9 - 9) 2); [|lia].
    destruct (Z.leb_spec m 2); [|lia]. f_equal; [f_equal; lia|lia].
Qed.

(** The period that starts on the start day of period [p] is [p]. *)
Lemma to_period_to_timestamp (f : freq) (p : Z) :
  to_period f (to_timestamp f p) = p.
Proof.
  destruct f; cbn [to_period to_timestamp]; [done| |].
  - Z.div_mod_to_equations. lia.
  - unfold year, month. rewrite civil_of_month_start.
    + cbn [fst snd]. Z.div_mod_to_equations. lia.
    + Z.div_mod_to_equations. lia.
Qed.

Lemma to_period_mono (f : freq) (a b : Z) :
  a <= b -> to_period f a <= to_period f b.
Proof.
  intros Hab. destruct f; cbn [to_period]; [done| |].
  - Z.div_mod_to_equations. lia.
  - by apply to_period_M_mono.
Qed.

(** A day lies in the period it is assigned to: on or after the start
    of that period and before the start of the next. *)
Lemma period_contains (f : freq) (d : Z) :
  to_timestamp f (to_period f d) <= d < to_timestamp f (to_period f d + 1).
Proof.
  split.
  - destruct f; cbn [to_period to_timestamp]; [lia| |].
    + Z.div_mod_to_equations. lia.
    + pose proof (month_range d) as Hm. pose proof (day_pos d) as Hd.
      replace (1970 + ((year d - 1970) * 12 + (month d - 1)) / 12)
        with (year d) by (Z.div_mod_to_equations; lia).
      replace (((year d - 1970) * 12 + (month d - 1)) mod 12 + 1)
        with (month d) by (Z.div_mod_to_equations; lia).
      pose proof (days_from_civil_from_days d) as Hrt.
      rewrite days_from_civil_day in Hrt. lia.
  - destruct (Z.lt_ge_cases d (to_timestamp f (to_period f d + 1)))
      as [Hlt|Hge]; [done|].
    apply (to_period_mono f) in Hge.
    rewrite to_period_to_timestamp in Hge. lia.
Qed.

End PeriodRoundTrip.

(** ** Series in ascending order of label *)

Lemma sorted_lt_le (l : list Z) : StronglySorted Z.lt l -> StronglySorted Z.le l.
Proof.
  intros Hs. rewrite <- (list_fmap_id l).
  apply (StronglySorted_fmap id Z.lt Z.le); [|done]. unfold id. lia.
Qed.

Lemma sorted_lt_NoDup (l : list Z) : StronglySorted Z.lt l -> NoDup l.
Proof.
  induction 1 as [|x l Hs IH Hx]; constructor; [|done].
  rewrite Forall_forall in Hx. intros Hin. specialize (Hx x Hin). lia.
Qed.

(** Two strictly ascending lists with the same elements are equal. *)
Lemma sorted_lt_ext (l k : list Z) :
  StronglySorted Z.lt l -> StronglySorted Z.lt k ->
  (forall x, x ∈ l <-> x ∈ k) -> l = k.
Proof.
  intros Hl Hk Hlk.
  apply (StronglySorted_unique_strong Z.lt); [|done..|].
  - intros x y _ _ Hxy Hyx. lia.
  - by apply NoDup_Permutation; [apply sorted_lt_NoDup..|].
Qed.

Lemma sorted_labels (s : list (Z * nat)) :
  StronglySorted Z.lt s.*1 -> StronglySorted label_le s.
Proof.
  induction s as [|x s IH]; [constructor|].
  rewrite fmap_cons. intros [Hx Hs]%StronglySorted_cons.
  constructor; [by apply IH|].
  rewrite Forall_fmap in Hx. eapply Forall_impl; [exact Hx|].
  intros y Hy. unfold label_le. simpl in Hy. lia.
Qed.

(** Two series in strictly ascending order of label with the same
    entries are equal. *)
Lemma series_ext (s t : list (Z * nat)) :
  StronglySorted Z.lt s.*1 -> StronglySorted Z.lt t.*1 ->
  (forall e, e ∈ s <-> e ∈ t) -> s = t.
Proof.
  intros Hs Ht Hst.
  apply (StronglySorted_unique_strong label_le); [|by apply sorted_labels..|].
  - intros [k1 v1] [k2 v2] H1 H2 Hle Hge.
    unfold label_le in Hle, Hge. cbn in Hle, Hge.
    assert (k1 = k2) as -> by lia. f_equal.
    assert ((k2, v2) ∈ filter (fun r : Z * nat => r.1 = k2) s) as Hin
      by (apply list_elem_of_filter; split; [reflexivity|by apply Hst]).
    rewrite (filter_key_singleton s k2 v1) in Hin;
      [|by apply sorted_lt_NoDup|done].
    by apply list_elem_of_singleton in Hin as [= ->].
  - apply NoDup_Permutation; [| |done];
      eapply NoDup_fmap_1, sorted_lt_NoDup; eassumption.
Qed.

(** [sort_index] leaves a series alone that is in ascending order. *)
Lemma sort_index_sorted_id (s : list (Z * nat)) :
  StronglySorted Z.lt s.*1 -> sort_index s = s.
Proof.
  intros Hs. apply series_ext; [|done|].
  - apply StronglySorted_le_lt; [apply sort_index_sorted|].
    rewrite (sort_index_Permutation s). by apply sorted_lt_NoDup.
  - intros e. by rewrite (sort_index_Permutation s).
Qed.

Lemma groupby_keys_sorted {V} (key : V -> Z) (l : list V) :
  StronglySorted Z.lt (groupby Z.le key l).*1.
Proof.
  apply StronglySorted_le_lt; [|apply NoDup_groupby_keys].
  rewrite groupby_keys. apply StronglySorted_merge_sort; apply _.
Qed.

(** ** Periodic active users, continued *)

Lemma timestamp_labels_sorted {V} (period : freq) (h : Z * V -> nat)
    (G : list (Z * V)) :
  StronglySorted Z.lt G.*1 ->
  StronglySorted Z.lt
    ((fun g : Z * V => (to_timestamp period g.1, h g)) <$> G).*1.
Proof.
  intros HG.
  assert (((fun g : Z * V => (to_timestamp period g.1, h g)) <$> G).*1
          = to_timestamp period <$> G.*1) as ->
    by (rewrite <- !list_fmap_compose; by apply list_fmap_ext).
  apply (StronglySorted_fmap _ Z.lt); [|done].
  intros p q. apply PeriodFacts.to_timestamp_mono.
Qed.

(** The buckets leave [groupby] in ascending order of period start, so
    [sort_index] has nothing to do. *)
Lemma calculate_active_users_eq (data : DataFrame) (period : freq) :
  calculate_active_users data period
  = (fun g : Z * list (Z * Z) =>
       (to_timestamp period g.1, nunique (user_id <$> g.2))) <$>
      groupby Z.le (fun r => to_period period (date r)) (rows data).
Proof.
  unfold calculate_active_users. rewrite <- list_fmap_compose.
  apply sort_index_sorted_id.
  apply (timestamp_labels_sorted period
           (fun g : Z * list (Z * Z) => nunique (user_id <$> g.2))).
  apply groupby_keys_sorted.
Qed.

Lemma calculate_active_users_sorted (data : DataFrame) (period : freq) :
  StronglySorted Z.lt (calculate_active_users data period).*1.
Proof.
  rewrite calculate_active_users_eq.
  apply timestamp_labels_sorted, groupby_keys_sorted.
Qed.

Lemma elem_of_calculate_active_users (data : DataFrame) (period : freq)
    (start : Z) (n : nat) :
  (start, n) ∈ calculate_active_users data period <->
  exists p, (exists u, active_in_period (rows data) period p u) /\
    start = to_timestamp period p /\
    distinct_users (active_in_period (rows data) period p) n.
Proof.
  rewrite calculate_active_users_eq, list_elem_of_fmap. split.
  - intros ([k g] & [= -> ->] & Hg). cbn [fst snd].
    apply elem_of_groupby in Hg as [Hk ->].
    exists k. split; [by apply bucket_present|]. split; [done|].
    apply distinct_users_nunique. intros u. apply bucket_users.
  - intros (p & Hp & -> & Hn).
    exists (p, filter (fun r => to_period period (date r) = p) (rows data)).
    split.
    + cbn. f_equal. eapply distinct_users_inj; [exact Hn|].
      apply distinct_users_nunique. intros u. apply bucket_users.
    + apply elem_of_groupby. split; [|done]. by apply bucket_present.
Qed.

(** X8: Every event is counted in the bucket of the period that contains its
    date: the bucket labelled with the start of that period exists, holds
    at least one user, and the date lies on or after that start and
    before the start of the next period. *)
Theorem events_fall_in_their_bucket (data : DataFrame) (period : freq)
    (u d : Z) :
  (u, d) ∈ rows data ->
  exists n,
    (to_timestamp period (to_period period d), n)
      ∈ calculate_active_users data period /\
    (1 <= n)%nat /\
    to_timestamp period (to_period period d) <= d
      < to_timestamp period (to_period period d + 1).
Proof.
  intros Hr.
  assert (active_in_period (rows data) period (to_period period d) u) as Hu
    by (by exists d).
  exists (nunique (user_id <$>
    filter (fun r => to_period period (date r) = to_period period d) (rows data))).
  assert (distinct_users
    (active_in_period (rows data) period (to_period period d))
    (nunique (user_id <$>
       filter (fun r => to_period period (date r) = to_period period d)
              (rows data)))) as Hn
    by (apply distinct_users_nunique; intros v; apply bucket_users).
  split; [|split].
  - apply elem_of_calculate_active_users. exists (to_period period d).
    split; [by exists u|]. by split.
  - by eapply (distinct_users_pos _ _ u).
  - apply PeriodRoundTrip.period_contains.
Qed.

Lemma events_fall_in_their_bucket_witness :
  (1, Timestamp 2023 2 10) ∈ rows log1 /\
  exists n,
    (to_timestamp W (to_period W (Timestamp 2023 2 10)), n)
      ∈ calculate_active_users log1 W /\
    (1 <= n)%nat /\
    to_timestamp W (to_period W (Timestamp 2023 2 10)) <= Timestamp 2023 2 10
      < to_timestamp W (to_period W (Timestamp 2023 2 10) + 1).
Proof.
  assert ((1, Timestamp 2023 2 10) ∈ rows log1) as Hin
    by (right; by left).
  split; [exact Hin|]. exact (events_fall_in_their_bucket log1 W _ _ Hin).
Defined.

(** ** Daily active users *)

Lemma calculate_dau_eq (data : DataFrame) :
  calculate_dau data = calculate_active_users data D.
Proof.
  rewrite calculate_active_users_eq. unfold calculate_dau.
  apply list_fmap_ext. by intros i [k g] _.
Qed.

(** X1: [calculate_dau] is the daily case of [calculate_active_users]: one
    row per date that holds an event, in strictly ascending order of
    date, with the number of distinct users of that date. *)
Theorem daily_active_users (data : DataFrame) :
  calculate_dau data = calculate_active_users data D /\
  StronglySorted Z.lt (calculate_dau data).*1 /\
  (forall d n, (d, n) ∈ calculate_dau data <->
     (exists u, (u, d) ∈ rows data) /\
     distinct_users (fun u => (u, d) ∈ rows data) n).
Proof.
  pose proof (calculate_dau_eq data) as Heq.
  split; [done|]. rewrite Heq. split; [apply calculate_active_users_sorted|].
  intros d n. rewrite elem_of_calculate_active_users.
  unfold active_in_period. cbn [to_period to_timestamp]. split.
  - intros (p & [u (d' & Hr & <-)] & -> & Hn). split; [by exists u|].
    eapply distinct_users_iff; [|exact Hn].
    intros v. split; [by intros (d'' & Hr' & ->)|intros Hr'; by exists d'].
  - intros [[u Hr] Hn]. exists d. split; [by exists u, d|]. split; [done|].
    eapply distinct_users_iff; [|exact Hn].
    intros v. split; [intros Hr'; by exists d|by intros (d'' & Hr' & ->)].
Qed.

(** ** Fixed-window retention, continued *)

(** X2: [calculate_retention] fails exactly on a log without events, and
    then with the ZeroDivisionError of its first division. *)
Theorem retention_fails_iff_empty (data : DataFrame) (e : exn) :
  calculate_retention data = Raise e <->
  rows data = [] /\ e = ZeroDivisionError.
Proof.
  rewrite calculate_retention_counts. split.
  - intros Hfail. destruct (decide (rows data = [])) as [Hnil|Hne].
    + split; [done|]. rewrite Hnil in Hfail. cbn in Hfail. congruence.
    + rewrite !retained_count in Hfail by lia.
      rewrite truediv_same in Hfail by by apply nunique_users_pos.
      discriminate.
  - intros [Hnil ->]. by rewrite Hnil.
Qed.

(** ** Rolling 30-day window, continued *)

Lemma distinct_users_le (P Q : Z -> Prop) (n k : nat) :
  (forall u, P u -> Q u) ->
  distinct_users P n -> distinct_users Q k -> (n <= k)%nat.
Proof.
  intros HPQ (us & Hus & HP & <-) (vs & Hvs & HQ & <-).
  apply submseteq_length, NoDup_submseteq; [done|].
  intros u Hu. apply HQ, HPQ, HP, Hu.
Qed.

Lemma a30_window_count (data : DataFrame) (D0 : Z) :
  distinct_users (active_in_window (rows data) D0)
    (nunique (user_id <$>
       filter (fun r => D0 - 29 <= date r /\ date r <= D0) (rows data))).
Proof.
  apply distinct_users_nunique. intros u.
  rewrite list_elem_of_fmap. unfold active_in_window. split.
  - intros ([u' d] & -> & Hr). apply list_elem_of_filter in Hr as [Hw Hr].
    exists d. unfold date in Hw. simpl in Hw. by split.
  - intros (d & Hr & Hw). exists (u, d). split; [done|].
    by apply list_elem_of_filter.
Qed.

(** X4: The rolling count of a query date is at least the daily active users
    of every day of its window and at most the number of distinct users
    of the whole log. *)
Theorem rolling_active_bounds (data : DataFrame) (date_range : list Z) :
  Forall2 (fun D0 n =>
      (n <= nunique (user_id <$> rows data))%nat /\
      forall d k, D0 - 29 <= d <= D0 ->
        (d, k) ∈ calculate_dau data -> (k <= n)%nat)
    date_range (calculate_a30 data date_range).
Proof.
  unfold calculate_a30.
  apply Forall2_fmap_r, Forall_Forall2_diag, Forall_forall.
  intros D0 _. cbn [compose]. pose proof (a30_window_count data D0) as Hn. split.
  - apply (distinct_users_le (active_in_window (rows data) D0)
             (active (rows data))); [|exact Hn|].
    + intros u (d & Hr & _). by exists d.
    + apply distinct_users_nunique. intros u. apply active_iff.
  - intros d k Hd Hk. rewrite calculate_dau_eq in Hk.
    apply elem_of_calculate_active_users in Hk as (p & _ & Hp & Hk).
    cbn [to_timestamp] in Hp. subst p.
    eapply distinct_users_le; [|exact Hk|exact Hn].
    intros u (d' & Hr & Hd'). cbn [to_period] in Hd'. subst d'.
    by exists d.
Qed.

(** ** User acquisition, continued *)

Lemma user_acquisition_eq (data : DataFrame) :
  user_acquisition data
  = (fun g : Z * list (Z * Z) =>
       (to_timestamp M g.1, nunique (user_id <$> g.2))) <$>
      groupby Z.le (fun r => to_period M (date r)) (first_activity data).
Proof. unfold user_acquisition. by rewrite <- list_fmap_compose. Qed.

Lemma user_acquisition_sorted (data : DataFrame) :
  StronglySorted Z.lt (user_acquisition data).*1.
Proof.
  rewrite user_acquisition_eq.
  apply timestamp_labels_sorted, groupby_keys_sorted.
Qed.

Lemma elem_of_user_acquisition (data : DataFrame) (start : Z) (n : nat) :
  (start, n) ∈ user_acquisition data <->
  exists m, (exists u, acquired_in_month (rows data) m u) /\
    start = to_timestamp M m /\
    distinct_users (acquired_in_month (rows data) m) n.
Proof.
  assert (forall m, m ∈ (fun r => to_period M (date r)) <$> first_activity data
            <-> exists u, acquired_in_month (rows data) m u) as Hkey.
  { intros m. rewrite list_elem_of_fmap. split.
    - intros ([u f] & -> & Hr). exists u, f. split; [|done].
      by apply elem_of_first_activity.
    - intros (u & f & Hf & Hm). exists (u, f). split; [done|].
      by apply elem_of_first_activity. }
  unfold user_acquisition.
  rewrite <- list_fmap_compose, list_elem_of_fmap. split.
  - intros ([k g] & [= -> ->] & Hg). cbn [fst snd].
    apply elem_of_groupby in Hg as [Hk ->].
    exists k. split; [by apply Hkey|]. split; [done|].
    apply distinct_users_nunique. intros u. apply acquired_users.
  - intros (m & Hm & -> & Hn).
    exists (m, filter (fun r => to_period M (date r) = m) (first_activity data)).
    split.
    + cbn. f_equal. eapply distinct_users_inj; [exact Hn|].
      apply distinct_users_nunique. intros u. apply acquired_users.
    + apply elem_of_groupby. split; [|done]. by apply Hkey.
Qed.

Lemma acquired_active (log : list (Z * Z)) (m u : Z) :
  acquired_in_month log m u -> active_in_period log M m u.
Proof. intros (f & [Hf _] & Hm). by exists f. Qed.

(** X10: The acquisition series is in strictly ascending order of month, each
    of its months is a month of the monthly active-user series, and the
    new users of a month are at least one and at most the active users of
    that month. *)
Theorem acquisition_within_active_users (data : DataFrame) :
  StronglySorted Z.lt (user_acquisition data).*1 /\
  (forall start n, (start, n) ∈ user_acquisition data ->
     exists k, (start, k) ∈ calculate_active_users data M /\
       (1 <= n <= k)%nat).
Proof.
  split; [apply user_acquisition_sorted|].
  intros start n (m & [u Hu] & -> & Hn)%elem_of_user_acquisition.
  pose proof (acquired_active _ _ _ Hu) as Hactive.
  assert (distinct_users (active_in_period (rows data) M m)
    (nunique (user_id <$>
       filter (fun r => to_period M (date r) = m) (rows data)))) as Hk
    by (apply distinct_users_nunique; intros v; apply bucket_users).
  eexists. split; [|split].
  - apply elem_of_calculate_active_users. exists m.
    split; [by exists u|]. split; [done|exact Hk].
  - exact (distinct_users_pos _ n u Hu Hn).
  - eapply distinct_users_le; [|exact Hn|exact Hk]. apply acquired_active.
Qed.

(** ** Cohort analysis, continued *)

(** The retention matrix of a log with events, cell by cell. *)
Lemma cohort_analysis_Ok (data : DataFrame) :
  rows data <> [] ->
  exists cols,
    merge_sort Z.le
      (unique ((fun r : Z * Z * nat => r.1.2) <$> cohort_counts (rows data)))
    = 0 :: cols /\
    (cohort_analysis data).2
    = Ok (tabulate
            (merge_sort Z.le
               (unique ((fun r : Z * Z * nat => r.1.1) <$>
                          cohort_counts (rows data))))
            (0 :: cols)
            (fun c p =>
               round3 (fdiv (pivot_cell (cohort_counts (rows data)) c p)
                            (pivot_cell (cohort_counts (rows data)) c 0)))).
Proof.
  intros Hne. destruct (cohort_columns_head (rows data) Hne) as [cols Hcols].
  exists cols. split; [done|].
  rewrite cohort_analysis_result. unfold pivot_table.
  rewrite Hcols, iloc_col0_tabulate. cbn [mbind result_bind mret result_ret].
  by rewrite divide_tabulate, round_tabulate.
Qed.

Lemma cohort_analysis_empty (data : DataFrame) :
  rows data = [] -> (cohort_analysis data).2 = Raise IndexError.
Proof.
  intros Hnil. rewrite cohort_analysis_result. by rewrite Hnil.
Qed.


Lemma user_acquisition_labels (data : DataFrame) :
  (user_acquisition data).*1
  = to_timestamp M <$>
      (groupby Z.le (fun r => to_period M (date r)) (first_activity data)).*1.
Proof.
  rewrite user_acquisition_eq, <- !list_fmap_compose.
  by apply list_fmap_ext.
Qed.

Lemma cohort_zero_acquired (log : list (Z * Z)) (c u : Z) :
  cohort_active log c 0 u <-> acquired_in_month log c u.
Proof.
  split.
  - intros (d & f & _ & Hf & Hc & _). by exists f.
  - intros (f & Hf & Hc). exists f, f.
    split; [by destruct Hf|]. split; [done|]. split; [done|].
    unfold cohort_period_of. lia.
Qed.

(** X7: The rows of the retention matrix are the months of the acquisition
    series, in the same order, and the size of a cohort, the number of
    its users at CohortPeriod 0, is the number of new users of its
    month. *)
Theorem cohorts_are_acquisition_months (data : DataFrame) (mat : Pivot) :
  (cohort_analysis data).2 = Ok mat ->
  to_timestamp M <$> index mat = (user_acquisition data).*1 /\
  (forall c, c ∈ index mat ->
     exists n, (to_timestamp M c, n) ∈ user_acquisition data /\
       distinct_users (cohort_active (rows data) c 0) n).
Proof.
  intros HOk.
  assert (rows data <> []) as Hne.
  { intros Hnil. rewrite cohort_analysis_empty in HOk by done. discriminate. }
  destruct (cohort_analysis_Ok data Hne) as (cols & _ & HOk').
  rewrite HOk' in HOk. injection HOk as <-. cbn [index tabulate].
  split.
  - rewrite user_acquisition_labels.
    f_equal. apply sorted_lt_ext.
    + apply StronglySorted_le_lt; [|apply NoDup_key_set].
      apply StronglySorted_merge_sort; apply _.
    + apply groupby_keys_sorted.
    + intros c. rewrite cohort_index, elem_of_groupby_keys, list_elem_of_fmap.
      split.
      * intros [u (f & Hf & Hc)%cohort_zero_acquired]. exists (u, f).
        split; [done|]. by apply elem_of_first_activity.
      * intros ([u f] & -> & Hf%elem_of_first_activity). exists u.
        apply cohort_zero_acquired. by exists f.
  - intros c [u Hu]%cohort_index.
    assert (distinct_users (acquired_in_month (rows data) c)
      (nunique (user_id <$>
         filter (fun r => to_period M (date r) = c) (first_activity data))))
      as Hn by (apply distinct_users_nunique; intros v; apply acquired_users).
    eexists. split.
    + apply elem_of_user_acquisition. exists c. split; [|split; [done|exact Hn]].
      exists u. by apply cohort_zero_acquired.
    + eapply distinct_users_iff; [|exact Hn].
      intros v. symmetry. apply cohort_zero_acquired.
Qed.

Lemma cohorts_are_acquisition_months_witness :
  (cohort_analysis log1).2
    = Ok {| index := [636]; columns := [0; 1]; values := [[fin 1; fin 1]] |} /\
  to_timestamp M <$> [636] = (user_acquisition log1).*1 /\
  (forall c, c ∈ [636] ->
     exists n, (to_timestamp M c, n) ∈ user_acquisition log1 /\
       distinct_users (cohort_active (rows log1) c 0) n).
Proof.
  assert ((cohort_analysis log1).2
    = Ok {| index := [636]; columns := [0; 1]; values := [[fin 1; fin 1]] |})
    as HOk by (vm_compute; reflexivity).
  split; [exact HOk|].
  exact (cohorts_are_acquisition_months log1 _ HOk).
Defined.

(** *** Rounding *)

Lemma rint_bounds (q : Q) (a b : Z) :
  (inject_Z a <= q)%Q -> (q <= inject_Z b)%Q -> a <= rint q <= b.
Proof.
  intros Ha Hb. unfold rint.
  pose proof (Qfloor_resp_le _ _ Ha) as Ha'. rewrite Qfloor_Z in Ha'.
  pose proof (Qfloor_resp_le _ _ Hb) as Hb'. rewrite Qfloor_Z in Hb'.
  pose proof (Qfloor_le q) as Hfl.
  assert ((inject_Z (Qfloor q) < q)%Q -> Qfloor q + 1 <= b) as Hstep.
  { intros Hlt.
    assert (inject_Z (Qfloor q) < inject_Z b)%Q as Hlt'
      by (eapply Qlt_le_trans; eauto).
    rewrite <- Zlt_Qlt in Hlt'. lia. }
  destruct (Qcompare (q - inject_Z (Qfloor q)) (1 # 2)) eqn:Hc.
  - apply Qeq_alt in Hc. destruct (Z.even (Qfloor q)); [lia|].
    split; [lia|]. apply Hstep. lra.
  - lia.
  - apply Qgt_alt in Hc. split; [lia|]. apply Hstep. lra.
Qed.

(** Rounding to 3 decimals keeps a ratio between 0 and 1. *)
Lemma round3_unit (q : Q) :
  (0 <= q)%Q -> (q <= 1)%Q ->
  exists x, round3 (fin q) = fin x /\ (0 <= x)%Q /\ (x <= 1)%Q.
Proof.
  intros H0 H1. eexists. split; [reflexivity|].
  destruct (rint_bounds (q * 1000)%Q 0 1000) as [Hlo Hhi];
    [unfold inject_Z; lra..|].
  rewrite !Qred_correct. unfold Qle. cbn. lia.
Qed.

Lemma truediv_unit (n k : nat) (x : float) :
  (n <= k)%nat -> truediv n k = Ok x ->
  exists q, x = fin q /\ (0 <= q)%Q /\ (q <= 1)%Q.
Proof.
  intros Hnk. destruct k as [|k]; [done|]. intros [= <-].
  eexists. split; [reflexivity|].
  rewrite !Qred_correct. unfold Qle. cbn [Qnum Qden].
  rewrite <- Pos.of_nat_succ, Zpos_P_of_succ_nat. lia.
Qed.

Lemma cohort_counts_key (log : list (Z * Z)) (c p : Z) :
  (c, p) ∈ (cohort_counts log).*1 <-> exists u, cohort_active log c p u.
Proof.
  rewrite list_elem_of_fmap. split.
  - intros ([[c' p'] n] & [= -> ->] & Hin).
    by apply elem_of_cohort_counts in Hin as [Hu _].
  - intros Hu. destruct (cohort_counts_total log c p Hu) as (n & Hin & _).
    by exists (c, p, n).
Qed.

(** X6: The shape of the retention matrix: cohorts and period offsets are in
    strictly ascending order and the first offset is 0; an entry exists
    exactly for a cohort and an offset of the table; it is NaN when no
    user of the cohort is active at that offset, and otherwise a number
    between 0 and 1. *)
Theorem cohort_matrix_shape (data : DataFrame) (mat : Pivot) :
  (cohort_analysis data).2 = Ok mat ->
  StronglySorted Z.lt (index mat) /\
  StronglySorted Z.lt (columns mat) /\
  head (columns mat) = Some 0 /\
  (forall c p, is_Some (loc mat c p) <-> c ∈ index mat /\ p ∈ columns mat) /\
  (forall c p, c ∈ index mat -> p ∈ columns mat ->
     ~ (exists u, cohort_active (rows data) c p u) ->
     loc mat c p = Some nan) /\
  (forall c p x, loc mat c p = Some (fin x) ->
     (exists u, cohort_active (rows data) c p u) /\ (0 <= x)%Q /\ (x <= 1)%Q).
Proof.
  intros HOk.
  assert (rows data <> []) as Hne.
  { intros Hnil. rewrite cohort_analysis_empty in HOk by done. discriminate. }
  destruct (cohort_analysis_Ok data Hne) as (cols & Hcols & HOk').
  rewrite HOk' in HOk. injection HOk as <-. cbn [index columns tabulate].
  set (t := cohort_counts (rows data)) in *.
  set (idx := merge_sort Z.le (unique ((fun r : Z * Z * nat => r.1.1) <$> t))).
  assert (forall c p, is_Some (loc (tabulate idx (0 :: cols)
      (fun c p => round3 (fdiv (pivot_cell t c p) (pivot_cell t c 0)))) c p)
      <-> c ∈ idx /\ p ∈ 0 :: cols) as Hloc.
  { intros c p. split.
    - intros Hsome. destruct (decide (c ∈ idx)) as [Hc|Hc];
        [destruct (decide (p ∈ 0 :: cols)) as [Hp|Hp]; [done|]|];
        rewrite loc_tabulate_None in Hsome by auto; by destruct Hsome.
    - intros [Hc Hp]. by rewrite loc_tabulate. }
  split; [|split; [|split; [done|split; [done|split]]]].
  - apply StronglySorted_le_lt; [|apply NoDup_key_set].
    apply StronglySorted_merge_sort; apply _.
  - rewrite <- Hcols. apply StronglySorted_le_lt; [|apply NoDup_key_set].
    apply StronglySorted_merge_sort; apply _.
  - intros c p Hc Hp Hnone. rewrite loc_tabulate by done.
    rewrite (pivot_cell_absent t c p); [done|].
    intros Hin. apply Hnone.
    exact (proj1 (cohort_counts_key (rows data) c p) Hin).
  - intros c p x Hx.
    destruct (proj1 (Hloc c p)) as [Hc Hp]; [by rewrite Hx|].
    rewrite loc_tabulate in Hx by done. injection Hx as Hx.
    destruct (decide ((c, p) ∈ t.*1)) as [Hin|Hin].
    2:{ by rewrite (pivot_cell_absent t c p Hin) in Hx. }
    apply (proj1 (cohort_counts_key (rows data) c p)) in Hin as [u Hu].
    split; [by exists u|].
    destruct (cohort_counts_total (rows data) c p) as (n & Hn & _ & Hdn);
      [by exists u|].
    destruct (cohort_counts_total (rows data) c 0) as (k & Hk & Hkpos & Hdk);
      [exists u; by eapply cohort_active_zero|].
    rewrite (pivot_cell_present t c p n), (pivot_cell_present t c 0 k) in Hx
      by (apply NoDup_cohort_counts || done).
    assert (n <= k)%nat as Hnk.
    { eapply distinct_users_le; [|exact Hdn|exact Hdk].
      intros v. apply cohort_active_zero. }
    pose proof (fdiv_counts n k Hkpos) as Hdiv.
    destruct (truediv n k) as [y|] eqn:Hy; [|done].
    destruct (truediv_unit n k y Hnk Hy) as (q & -> & Hq0 & Hq1).
    assert (fdiv (fin (inject_Z (Z.of_nat n))) (fin (inject_Z (Z.of_nat k)))
            = fin q) as Hdiv' by congruence.
    rewrite Hdiv' in Hx.
    destruct (round3_unit q Hq0 Hq1) as (x' & Hx' & Hbounds).
    rewrite Hx' in Hx. by injection Hx as <-.
Qed.

Lemma cohort_matrix_shape_witness :
  (cohort_analysis log1).2
    = Ok {| index := [636]; columns := [0; 1]; values := [[fin 1; fin 1]] |} /\
  StronglySorted Z.lt [636] /\
  StronglySorted Z.lt [0; 1] /\
  head [0; 1] = Some 0.
Proof.
  assert ((cohort_analysis log1).2
    = Ok {| index := [636]; columns := [0; 1]; values := [[fin 1; fin 1]] |})
    as HOk by (vm_compute; reflexivity).
  split; [exact HOk|].
  destruct (cohort_matrix_shape log1 _ HOk) as (Hi & Hc & Hh & _).
  split; [exact Hi|]. split; [exact Hc|exact Hh].
Defined.

(** ** Monthly churn, continued *)

Lemma removelast_sorted (l : list Z) :
  StronglySorted Z.lt l -> StronglySorted Z.lt (removelast l).
Proof.
  induction 1 as [|x l Hs IH Hx]; [constructor|].
  destruct l as [|y l]; [constructor|].
  change (removelast (x :: y :: l)) with (x :: removelast (y :: l)).
  constructor; [done|]. rewrite Forall_forall in Hx |- *.
  intros z Hz. apply Hx. eapply elem_of_sublist; [exact Hz|].
  apply sublist_removelast.
Qed.

Lemma fmap_removelast {A B} (f : A -> B) (l : list A) :
  f <$> removelast l = removelast (f <$> l).
Proof.
  induction l as [|x [|y l] IH]; [done..|].
  change (removelast (x :: y :: l)) with (x :: removelast (y :: l)).
  rewrite !fmap_cons, IH. done.
Qed.

(** The months the loop visits, in the order it visits them. *)
Lemma loop_months (log : list (Z * Z)) :
  merge_sort Z.le (removelast (monthly_users log).*1)
  = removelast (monthly_users log).*1.
Proof.
  pose proof (removelast_sorted _ (sorted_monthly_users log)) as Hs.
  apply sorted_lt_ext; [|done|].
  - apply StronglySorted_le_lt.
    + apply StronglySorted_merge_sort; apply _.
    + rewrite merge_sort_Permutation. by apply sorted_lt_NoDup.
  - intros m. by rewrite merge_sort_Permutation.
Qed.

(** No gap after any month but the last, and at least two months: the
    series that [calculate_monthly_churn] returns. *)
Lemma monthly_churn_series (data : DataFrame) :
  (exists m, month_before_last (rows data) m) ->
  (forall m, month_before_last (rows data) m ->
     exists u, active_in_period (rows data) M (m + 1) u) ->
  (calculate_monthly_churn data).2
  = Ok ((fun m => (to_timestamp M m, churn_count (rows data) m)) <$>
          removelast (monthly_users (rows data)).*1).
Proof.
  intros [m0 Hm0] Hnogap. rewrite calculate_monthly_churn_result.
  pose proof (elem_of_loop_months (rows data)) as Hmonths.
  rewrite loop_months in *.
  set (months := removelast (monthly_users (rows data)).*1) in *.
  rewrite (mapM_Ok _ (fun m => (m, churn_count (rows data) m))).
  2:{ intros m Hm%Hmonths. apply churn_of_Ok; [by destruct Hm|by apply Hnogap]. }
  cbn [mbind result_bind]. rewrite <- !list_fmap_compose.
  assert ((fst ∘ (fun m => (m, churn_count (rows data) m))) <$> months = months)
    as -> by (rewrite <- (list_fmap_id months) at 2; by apply list_fmap_ext).
  unfold dict_index_to_timestamp.
  destruct months as [|m1 months'] eqn:Heq.
  { apply Hmonths in Hm0. by apply not_elem_of_nil in Hm0. }
  rewrite <- Heq. cbn [mbind result_bind mret result_ret].
  by rewrite zip_with_fmap_same.
Qed.

(** The three ways [calculate_monthly_churn] can end. *)
Lemma monthly_churn_cases (data : DataFrame) :
  (~ (exists m, month_before_last (rows data) m) /\
   (calculate_monthly_churn data).2 = Raise AttributeError) \/
  ((exists m, month_before_last (rows data) m /\
      ~ (exists u, active_in_period (rows data) M (m + 1) u)) /\
   (calculate_monthly_churn data).2 = Raise KeyError) \/
  ((exists m, month_before_last (rows data) m) /\
   (forall m, month_before_last (rows data) m ->
      exists u, active_in_period (rows data) M (m + 1) u) /\
   (calculate_monthly_churn data).2
   = Ok ((fun m => (to_timestamp M m, churn_count (rows data) m)) <$>
           removelast (monthly_users (rows data)).*1)).
Proof.
  pose proof (elem_of_loop_months (rows data)) as Hmonths.
  rewrite loop_months in Hmonths.
  destruct (removelast (monthly_users (rows data)).*1) as [|m0 months] eqn:Heq.
  - left.
    assert (~ (exists m, month_before_last (rows data) m)) as Hone.
    { intros [m Hm%Hmonths]. by apply not_elem_of_nil in Hm. }
    split; [done|]. by apply monthly_churn_one_month.
  - right. rewrite <- Heq in *.
    destruct (decide (Exists (fun m => m + 1 ∉ (monthly_users (rows data)).*1)
                        (removelast (monthly_users (rows data)).*1)))
      as [Hgap|Hnogap].
    + left. apply Exists_exists in Hgap as (m & Hm%Hmonths & Hnext).
      rewrite elem_of_monthly_users_keys in Hnext.
      split; [by exists m|]. by apply (monthly_churn_gap data m).
    + right. rewrite <- Forall_Exists_neg, Forall_forall in Hnogap.
      assert (exists m, month_before_last (rows data) m) as Htwo.
      { exists m0. apply Hmonths. rewrite Heq. by left. }
      assert (forall m, month_before_last (rows data) m ->
                exists u, active_in_period (rows data) M (m + 1) u) as Hnext.
      { intros m Hm%Hmonths. specialize (Hnogap m Hm).
        apply elem_of_monthly_users_keys.
        destruct (decide (m + 1 ∈ (monthly_users (rows data)).*1)); tauto. }
      split; [done|]. split; [done|]. by apply monthly_churn_series.
Qed.

(** X11: How [calculate_monthly_churn] ends: it returns a series exactly when
    the log holds events in at least two months and in the month after
    every month but the last; it raises KeyError exactly when some month
    but the last is followed by a month without events; and it raises
    AttributeError exactly when fewer than two months hold events. *)
Theorem monthly_churn_outcome (data : DataFrame) :
  ((exists series, (calculate_monthly_churn data).2 = Ok series) <->
   (exists m, month_before_last (rows data) m) /\
   (forall m, month_before_last (rows data) m ->
      exists u, active_in_period (rows data) M (m + 1) u)) /\
  ((calculate_monthly_churn data).2 = Raise KeyError <->
   exists m, month_before_last (rows data) m /\
     ~ (exists u, active_in_period (rows data) M (m + 1) u)) /\
  ((calculate_monthly_churn data).2 = Raise AttributeError <->
   ~ (exists m, month_before_last (rows data) m)).
Proof.
  destruct (monthly_churn_cases data)
    as [[Hone Hres]|[[(m & Hm & Hgap) Hres]|(Htwo & Hnext & Hres)]];
    rewrite Hres.
  - split; [|split].
    + split; [by intros [series ?]|by intros [Htwo _]].
    + split; [done|]. intros (m & Hm & _). destruct Hone. by exists m.
    + done.
  - split; [|split].
    + split; [by intros [series ?]|]. intros [_ Hnext]. by destruct Hgap; auto.
    + split; [|done]. intros _. by exists m.
    + split; [done|]. intros Hone. destruct Hone. by exists m.
  - split; [|split].
    + split; [done|]. intros _. by eexists.
    + split; [done|]. intros (m & Hm & Hgap). destruct Hgap. by apply Hnext.
    + split; [done|]. intros Hone. by destruct Hone.
Qed.

Lemma log1_months (m u : Z) :
  active_in_period (rows log1) M m u -> m = 636 \/ m = 637.
Proof.
  intros (d & Hin & <-). cbn in Hin. rewrite !elem_of_cons in Hin.
  destruct Hin as [[= -> ->]|[[= -> ->]|[[= -> ->]|[[= -> ->]|Hin]]]];
    [vm_compute; tauto..|by apply not_elem_of_nil in Hin].
Qed.

Lemma log1_two_months : exists m, month_before_last (rows log1) m.
Proof.
  exists 636. split.
  - exists 1, (Timestamp 2023 1 5). split; [by left|done].
  - exists 637, 1. split; [lia|].
    exists (Timestamp 2023 2 10). split; [right; by left|done].
Qed.

Lemma log1_no_gap (m : Z) :
  month_before_last (rows log1) m ->
  exists u, active_in_period (rows log1) M (m + 1) u.
Proof.
  intros [[u Hu] (m' & u' & Hlt & Hu')].
  apply log1_months in Hu, Hu'.
  assert (m = 636) as -> by lia.
  exists 1, (Timestamp 2023 2 10). split; [right; by left|done].
Qed.

Lemma monthly_churn_no_gap_witness :
  exists series, (calculate_monthly_churn log1).2 = Ok series /\
    StronglySorted Z.lt series.*1 /\
    (forall start n, (start, n) ∈ series <->
       exists m, month_before_last (rows log1) m /\
         start = to_timestamp M m /\
         distinct_users (churned (rows log1) m) n).
Proof.
  exact (monthly_churn_no_gap log1 log1_two_months log1_no_gap).
Defined.

Lemma monthly_users_labels (data : DataFrame) :
  (calculate_active_users data M).*1
  = to_timestamp M <$> (monthly_users (rows data)).*1.
Proof.
  rewrite calculate_active_users_eq, monthly_users_keys. unfold unique.
  rewrite <- (groupby_keys Z.le (fun r => to_period M (date r))).
  rewrite <- !list_fmap_compose. by apply list_fmap_ext.
Qed.

Lemma churned_active (log : list (Z * Z)) (m u : Z) :
  churned log m u -> active_in_period log M m u.
Proof. by intros [Hu _]. Qed.

(** X13: When [calculate_monthly_churn] returns a series, its months are the
    months of the monthly active-user series without the last one, in
    the same order, and the churn of a month is at most the number of
    active users of that month. *)
Theorem churn_bounded_by_active_users (data : DataFrame)
    (series : list (Z * nat)) :
  (calculate_monthly_churn data).2 = Ok series ->
  series.*1 = removelast (calculate_active_users data M).*1 /\
  (forall start n, (start, n) ∈ series ->
     exists k, (start, k) ∈ calculate_active_users data M /\ (n <= k)%nat).
Proof.
  intros HOk.
  destruct (monthly_churn_cases data)
    as [[_ Hres]|[[_ Hres]|(_ & _ & Hres)]]; [congruence..|].
  rewrite Hres in HOk. injection HOk as <-. split.
  - rewrite monthly_users_labels.
    generalize ((monthly_users (rows data)).*1). intros K.
    rewrite <- fmap_removelast, <- list_fmap_compose.
    by apply list_fmap_ext.
  - intros start n (m & [= -> ->] & Hm)%list_elem_of_fmap.
    pose proof (elem_of_sublist _ _ _ Hm
      (sublist_removelast (monthly_users (rows data)).*1)) as Hkey.
    apply elem_of_monthly_users_keys in Hkey as [u Hu].
    assert (distinct_users (active_in_period (rows data) M m)
      (nunique (user_id <$>
         filter (fun r => to_period M (date r) = m) (rows data)))) as Hk
      by (apply distinct_users_nunique; intros v; apply bucket_users).
    eexists. split.
    + apply elem_of_calculate_active_users. exists m.
      split; [by exists u|]. split; [done|exact Hk].
    + eapply distinct_users_le; [|apply churn_count_spec|exact Hk].
      apply churned_active.
Qed.

Lemma churn_bounded_by_active_users_witness :
  (calculate_monthly_churn log1).2 = Ok [(Timestamp 2023 1 1, 0%nat)] /\
  [(Timestamp 2023 1 1, 0%nat)].*1
    = removelast (calculate_active_users log1 M).*1 /\
  (forall start n, (start, n) ∈ [(Timestamp 2023 1 1, 0%nat)] ->
     exists k, (start, k) ∈ calculate_active_users log1 M /\ (n <= k)%nat).
Proof.
  assert ((calculate_monthly_churn log1).2 = Ok [(Timestamp 2023 1 1, 0%nat)])
    as HOk by (vm_compute; reflexivity).
  split; [exact HOk|].
  exact (churn_bounded_by_active_users log1 _ HOk).
Defined.

(** ** Average churn, continued *)

Lemma series_mean_nonempty (l : list Z) :
  l <> [] ->
  series_mean l = fin (Qred (foldr Z.add 0 l # Pos.of_nat (length l))).
Proof. by destruct l. Qed.

Lemma sum_counts_nonneg (s : list (Z * nat)) :
  0 <= foldr Z.add 0 ((fun e : Z * nat => Z.of_nat e.2) <$> s).
Proof. induction s as [|e s IH]; csimpl; lia. Qed.

Lemma average_churn_Ok_inv (data : DataFrame) (x : float) :
  (calculate_average_churn data).2 = Ok x ->
  exists series, (calculate_monthly_churn data).2 = Ok series /\
    x = series_mean ((fun e : Z * nat => Z.of_nat e.2) <$> series).
Proof.
  unfold calculate_average_churn.
  destruct (calculate_monthly_churn data) as [data' [series|e]]; [|done].
  intros [= <-]. by exists series.
Qed.

(** X14: Whenever [calculate_average_churn] returns, it returns a number, never
    NaN: the series of [calculate_monthly_churn] it averages is not
    empty, and the result is the sum of the churn counts divided by the
    number of months of the series, which is not negative. *)
Theorem average_churn_is_a_number (data : DataFrame) (x : float) :
  (calculate_average_churn data).2 = Ok x ->
  exists (series : list (Z * nat)) (q : Q),
    (calculate_monthly_churn data).2 = Ok series /\
    series <> [] /\
    x = fin q /\
    (q == inject_Z (foldr Z.add 0%Z ((fun e : Z * nat => Z.of_nat e.2) <$> series))
          / inject_Z (Z.of_nat (length series)))%Q /\
    (0 <= q)%Q.
Proof.
  intros (series & HOk & ->)%average_churn_Ok_inv.
  exists series.
  assert (series <> []) as Hne.
  { destruct (monthly_churn_cases data)
      as [[_ Hres]|[[_ Hres]|((m0 & Hm0) & _ & Hres)]]; [congruence..|].
    rewrite Hres in HOk. injection HOk as <-.
    apply elem_of_loop_months in Hm0. rewrite loop_months in Hm0.
    intros Hnil%fmap_nil_inv. rewrite Hnil in Hm0.
    by apply not_elem_of_nil in Hm0. }
  pose proof (sum_counts_nonneg series) as Hsum.
  destruct series as [|e series]; [done|].
  eexists. split; [done|]. split; [done|].
  rewrite series_mean_nonempty by done. split; [reflexivity|].
  rewrite length_fmap.
  assert (Z.pos (Pos.of_nat (length (e :: series)))
          = Z.of_nat (length (e :: series))) as Hlen.
  { cbn [length]. rewrite <- Pos.of_nat_succ, Zpos_P_of_succ_nat. lia. }
  split.
  - rewrite Qred_correct, Qmake_Qdiv. by rewrite Hlen.
  - rewrite Qred_correct. unfold Qle. cbn [Qnum Qden]. lia.
Qed.

Lemma average_churn_is_a_number_witness :
  (calculate_average_churn log1).2 = Ok (fin 0) /\
  exists (series : list (Z * nat)) (q : Q),
    (calculate_monthly_churn log1).2 = Ok series /\
    series <> [] /\
    fin 0 = fin q /\
    (q == inject_Z (foldr Z.add 0%Z ((fun e : Z * nat => Z.of_nat e.2) <$> series))
          / inject_Z (Z.of_nat (length series)))%Q /\
    (0 <= q)%Q.
Proof.
  assert ((calculate_average_churn log1).2 = Ok (fin 0)) as HOk
    by (vm_compute; reflexivity).
  split; [exact HOk|].
  exact (average_churn_is_a_number log1 _ HOk).
Defined.

(** ** The page of [main] *)




(** ** Order of the rows and repeated rows *)

Section SameEvents.
Variables log log' : list (Z * Z).
Hypothesis Hsame : forall e, e ∈ log <-> e ∈ log'.

Lemma same_active (u : Z) : active log u <-> active log' u.
Proof. unfold active. by setoid_rewrite Hsame. Qed.

Lemma same_active_in_period (f : freq) (p u : Z) :
  active_in_period log f p u <-> active_in_period log' f p u.
Proof. unfold active_in_period. by setoid_rewrite Hsame. Qed.

Lemma same_active_in_window (D0 u : Z) :
  active_in_window log D0 u <-> active_in_window log' D0 u.
Proof. unfold active_in_window. by setoid_rewrite Hsame. Qed.

Lemma same_FirstActivity (u f : Z) :
  FirstActivity log u f <-> FirstActivity log' u f.
Proof. unfold FirstActivity. by setoid_rewrite Hsame. Qed.

Lemma same_acquired_in_month (m u : Z) :
  acquired_in_month log m u <-> acquired_in_month log' m u.
Proof. unfold acquired_in_month. by setoid_rewrite same_FirstActivity. Qed.

Lemma same_cohort_active (c p u : Z) :
  cohort_active log c p u <-> cohort_active log' c p u.
Proof.
  unfold cohort_active. setoid_rewrite same_FirstActivity.
  by setoid_rewrite Hsame.
Qed.

Lemma same_churned (m u : Z) : churned log m u <-> churned log' m u.
Proof. unfold churned. by rewrite !same_active_in_period. Qed.

Lemma same_month_before_last (m : Z) :
  month_before_last log m <-> month_before_last log' m.
Proof. unfold month_before_last. by setoid_rewrite same_active_in_period. Qed.

Lemma same_nil : log = [] <-> log' = [].
Proof.
  split; intros ->.
  - destruct log' as [|e l]; [done|].
    by destruct (not_elem_of_nil e); apply Hsame; left.
  - destruct log as [|e l]; [done|].
    by destruct (not_elem_of_nil e); apply Hsame; left.
Qed.

End SameEvents.

Lemma same_calculate_active_users (data data' : DataFrame) (period : freq) :
  (forall e, e ∈ rows data <-> e ∈ rows data') ->
  calculate_active_users data period = calculate_active_users data' period.
Proof.
  intros Hsame. apply series_ext; [apply calculate_active_users_sorted..|].
  intros [start n]. rewrite !elem_of_calculate_active_users.
  split; intros (p & [u Hu] & -> & Hn); exists p.
  - split; [exists u; by apply (same_active_in_period _ _ Hsame)|].
    split; [done|]. eapply distinct_users_iff; [|exact Hn].
    intros v. by apply same_active_in_period.
  - split; [exists u; by apply (same_active_in_period _ _ Hsame)|].
    split; [done|]. eapply distinct_users_iff; [|exact Hn].
    intros v. symmetry. by apply same_active_in_period.
Qed.

Lemma same_calculate_a30 (data data' : DataFrame) (date_range : list Z) :
  (forall e, e ∈ rows data <-> e ∈ rows data') ->
  calculate_a30 data date_range = calculate_a30 data' date_range.
Proof.
  intros Hsame. unfold calculate_a30. apply list_fmap_ext. intros _ D0 _.
  eapply distinct_users_inj; [apply a30_window_count|].
  eapply distinct_users_iff; [|apply a30_window_count].
  intros u. symmetry. by apply same_active_in_window.
Qed.

Lemma same_user_acquisition (data data' : DataFrame) :
  (forall e, e ∈ rows data <-> e ∈ rows data') ->
  user_acquisition data = user_acquisition data'.
Proof.
  intros Hsame. apply series_ext; [apply user_acquisition_sorted..|].
  intros [start n]. rewrite !elem_of_user_acquisition.
  split; intros (m & [u Hu] & -> & Hn); exists m.
  - split; [exists u; by apply (same_acquired_in_month _ _ Hsame)|].
    split; [done|]. eapply distinct_users_iff; [|exact Hn].
    intros v. by apply same_acquired_in_month.
  - split; [exists u; by apply (same_acquired_in_month _ _ Hsame)|].
    split; [done|]. eapply distinct_users_iff; [|exact Hn].
    intros v. symmetry. by apply same_acquired_in_month.
Qed.

Lemma same_calculate_retention (data data' : DataFrame) :
  (forall e, e ∈ rows data <-> e ∈ rows data') ->
  calculate_retention data = calculate_retention data'.
Proof.
  intros Hsame. rewrite !calculate_retention_counts.
  rewrite !retained_count by lia.
  assert (nunique (user_id <$> rows data) = nunique (user_id <$> rows data'))
    as ->; [|done].
  apply nunique_equiv. intros u. rewrite !active_iff.
  by apply same_active.
Qed.

Lemma same_monthly_users_keys (data data' : DataFrame) :
  (forall e, e ∈ rows data <-> e ∈ rows data') ->
  (monthly_users (rows data)).*1 = (monthly_users (rows data')).*1.
Proof.
  intros Hsame. apply sorted_lt_ext; [apply sorted_monthly_users..|].
  intros m. rewrite !elem_of_monthly_users_keys.
  by setoid_rewrite (same_active_in_period _ _ Hsame).
Qed.

Lemma same_churn_count (data data' : DataFrame) (m : Z) :
  (forall e, e ∈ rows data <-> e ∈ rows data') ->
  churn_count (rows data) m = churn_count (rows data') m.
Proof.
  intros Hsame. eapply distinct_users_inj; [apply churn_count_spec|].
  eapply distinct_users_iff; [|apply churn_count_spec].
  intros u. symmetry. by apply same_churned.
Qed.

Lemma same_calculate_monthly_churn (data data' : DataFrame) :
  (forall e, e ∈ rows data <-> e ∈ rows data') ->
  (calculate_monthly_churn data).2 = (calculate_monthly_churn data').2.
Proof.
  intros Hsame.
  pose proof (same_month_before_last _ _ Hsame) as Hmbl.
  pose proof (fun m u => same_active_in_period _ _ Hsame M m u) as Hact.
  destruct (monthly_churn_cases data)
    as [[Hone Hres]|[[(m & Hm & Hgap) Hres]|(Htwo & Hnext & Hres)]];
    destruct (monthly_churn_cases data')
      as [[Hone' Hres']|[[(m' & Hm' & Hgap') Hres']|(Htwo' & Hnext' & Hres')]];
    rewrite Hres, Hres'; try done.
  - destruct Hone. exists m'. by apply Hmbl.
  - destruct Hone. destruct Htwo' as [m' Hm']. exists m'. by apply Hmbl.
  - destruct Hone'. exists m. by apply Hmbl.
  - destruct Hgap. apply Hmbl, Hnext' in Hm as [u Hu]. exists u. by apply Hact.
  - destruct Hone'. destruct Htwo as [m Hm]. exists m. by apply Hmbl.
  - destruct Hgap'. apply Hmbl, Hnext in Hm' as [u Hu]. exists u. by apply Hact.
  - f_equal. rewrite (same_monthly_users_keys data data' Hsame).
    apply list_fmap_ext. intros _ m _. f_equal. by apply same_churn_count.
Qed.

Lemma calculate_average_churn_result (data : DataFrame) :
  (calculate_average_churn data).2
  = (series ← (calculate_monthly_churn data).2;
     mret (series_mean ((fun e : Z * nat => Z.of_nat e.2) <$> series))).
Proof.
  unfold calculate_average_churn.
  by destruct (calculate_monthly_churn data) as [data' res].
Qed.

#[global] Instance lex_le_trans : Transitive lex_le.
Proof. intros a b c. unfold lex_le. lia. Qed.

#[global] Instance lex_le_total : Total lex_le.
Proof. intros a b. unfold lex_le. lia. Qed.

Lemma lex_le_antisym (a b : Z * Z) : lex_le a b -> lex_le b a -> a = b.
Proof.
  destruct a as [a1 a2], b as [b1 b2]. unfold lex_le. cbn.
  intros H1 H2. f_equal; lia.
Qed.

Lemma cohort_counts_keys (log : list (Z * Z)) :
  cohort_counts log
  = (fun k : Z * Z =>
       (k, nunique (snd <$> filter (fun t : Z * Z * Z => t.1 = k)
                                   (cohort_row log <$> log)))) <$>
      merge_sort lex_le (drop_duplicates id (fst <$> (cohort_row log <$> log))).
Proof. unfold cohort_counts, groupby. by rewrite <- list_fmap_compose. Qed.

Lemma same_cohort_counts (log log' : list (Z * Z)) :
  (forall e, e ∈ log <-> e ∈ log') -> cohort_counts log = cohort_counts log'.
Proof.
  intros Hsame. rewrite !cohort_counts_keys.
  assert (merge_sort lex_le
            (drop_duplicates id (fst <$> (cohort_row log <$> log)))
          = merge_sort lex_le
              (drop_duplicates id (fst <$> (cohort_row log' <$> log'))))
    as <-.
  { apply (StronglySorted_unique_strong lex_le).
    - intros a b _ _. apply lex_le_antisym.
    - apply StronglySorted_merge_sort; apply _.
    - apply StronglySorted_merge_sort; apply _.
    - apply NoDup_Permutation; [apply NoDup_key_set..|].
      intros [c p]. rewrite !elem_of_key_set, !cohort_key_present.
      by setoid_rewrite (same_cohort_active _ _ Hsame). }
  apply list_fmap_ext. intros _ [c p] _. f_equal.
  apply nunique_equiv. intros u. rewrite !cohort_group_users.
  by apply same_cohort_active.
Qed.

Lemma same_cohort_analysis (data data' : DataFrame) :
  (forall e, e ∈ rows data <-> e ∈ rows data') ->
  (cohort_analysis data).2 = (cohort_analysis data').2.
Proof.
  intros Hsame. rewrite !cohort_analysis_result.
  by rewrite (same_cohort_counts _ _ Hsame).
Qed.

(** X16: No metric depends on the order of the rows or on rows that occur
    more than once: two frames with the same set of events give the same
    active-user series, daily active users, rolling counts, acquisition
    series, retention ratios, churn series, average churn and retention
    matrix, failures included. *)
Theorem metrics_ignore_order_and_duplicates (data data' : DataFrame) :
  (forall e, e ∈ rows data <-> e ∈ rows data') ->
  (forall period,
     calculate_active_users data period = calculate_active_users data' period) /\
  calculate_dau data = calculate_dau data' /\
  (forall date_range,
     calculate_a30 data date_range = calculate_a30 data' date_range) /\
  user_acquisition data = user_acquisition data' /\
  calculate_retention data = calculate_retention data' /\
  (calculate_monthly_churn data).2 = (calculate_monthly_churn data').2 /\
  (calculate_average_churn data).2 = (calculate_average_churn data').2 /\
  (cohort_analysis data).2 = (cohort_analysis data').2.
Proof.
  intros Hsame. repeat split.
  - intros period. by apply same_calculate_active_users.
  - rewrite !calculate_dau_eq. by apply same_calculate_active_users.
  - intros date_range. by apply same_calculate_a30.
  - by apply same_user_acquisition.
  - by apply same_calculate_retention.
  - by apply same_calculate_monthly_churn.
  - rewrite !calculate_average_churn_result.
    by rewrite (same_calculate_monthly_churn data data' Hsame).
  - by apply same_cohort_analysis.
Qed.

Lemma log1_shuffled_same (e : Z * Z) :
  e ∈ rows log1 <-> e ∈ rows log1_shuffled.
Proof.
  cbn [rows log1 log1_shuffled load_data]. rewrite !elem_of_cons.
  rewrite !elem_of_nil. tauto.
Qed.

Lemma metrics_ignore_order_and_duplicates_witness :
  (forall period,
     calculate_active_users log1 period
     = calculate_active_users log1_shuffled period) /\
  calculate_dau log1 = calculate_dau log1_shuffled /\
  (forall date_range,
     calculate_a30 log1 date_range = calculate_a30 log1_shuffled date_range) /\
  user_acquisition log1 = user_acquisition log1_shuffled /\
  calculate_retention log1 = calculate_retention log1_shuffled /\
  (calculate_monthly_churn log1).2 = (calculate_monthly_churn log1_shuffled).2 /\
  (calculate_average_churn log1).2 = (calculate_average_churn log1_shuffled).2 /\
  (cohort_analysis log1).2 = (cohort_analysis log1_shuffled).2.
Proof.
  exact (metrics_ignore_order_and_duplicates log1 log1_shuffled
           log1_shuffled_same).
Defined.

(** ** Finer and coarser buckets *)

(** X9: The daily active users of a date are at most the active users of the
    week and of the month that contain the date. *)
Theorem daily_at_most_periodic (data : DataFrame) (d : Z) (k : nat)
    (period : freq) :
  (d, k) ∈ calculate_dau data ->
  exists n,
    (to_timestamp period (to_period period d), n)
      ∈ calculate_active_users data period /\
    (k <= n)%nat.
Proof.
  rewrite calculate_dau_eq.
  intros (p & [u Hu] & Hp & Hk)%elem_of_calculate_active_users.
  cbn [to_timestamp] in Hp. subst p.
  assert (forall v, active_in_period (rows data) D d v ->
            active_in_period (rows data) period (to_period period d) v) as Hsub.
  { intros v (d' & Hr & Hd'). cbn [to_period] in Hd'. subst d'. by exists d. }
  assert (distinct_users
    (active_in_period (rows data) period (to_period period d))
    (nunique (user_id <$>
       filter (fun r => to_period period (date r) = to_period period d)
              (rows data)))) as Hn
    by (apply distinct_users_nunique; intros v; apply bucket_users).
  eexists. split.
  - apply elem_of_calculate_active_users. exists (to_period period d).
    split; [exists u; by apply Hsub|]. split; [done|exact Hn].
  - by eapply distinct_users_le.
Qed.

Lemma daily_at_most_periodic_witness :
  (Timestamp 2023 1 5, 1%nat) ∈ calculate_dau log1 /\
  exists n,
    (to_timestamp M (to_period M (Timestamp 2023 1 5)), n)
      ∈ calculate_active_users log1 M /\
    (1 <= n)%nat.
Proof.
  assert ((Timestamp 2023 1 5, 1%nat) ∈ calculate_dau log1) as Hin
    by (vm_compute; left).
  split; [exact Hin|]. exact (daily_at_most_periodic log1 _ _ M Hin).
Defined.

(** ** The join of [calculate_retention] *)

Lemma join_first_activity (fa : list (Z * Z)) (u d f : Z) :
  NoDup fa.*1 -> (u, f) ∈ fa ->
  (r ← fa;
   if decide (user_id (u, d) = user_id r)
   then [(user_id (u, d), date (u, d), date r)] else [])
  = [(u, d, f)].
Proof.
  unfold user_id, date. cbn [fst snd].
  induction fa as [|[u' f'] fa IH]; intros Hnd Hin;
    [by apply not_elem_of_nil in Hin|].
  rewrite fmap_cons in Hnd. apply NoDup_cons in Hnd as [Hu' Hnd].
  rewrite bind_cons. cbn [fst snd].
  apply elem_of_cons in Hin as [[= <- <-]|Hin].
  - rewrite decide_True by done. cbn. f_equal.
    clear IH. induction fa as [|[u2 f2] fa IH]; [done|].
    rewrite fmap_cons, not_elem_of_cons in Hu'. destruct Hu' as [Hne Hu'].
    rewrite fmap_cons in Hnd. apply NoDup_cons in Hnd as [_ Hnd].
    rewrite bind_cons. cbn [fst snd]. rewrite decide_False by done.
    by apply IH.
  - rewrite decide_False.
    + cbn. by apply IH.
    + intros ->. apply Hu'. by apply (list_elem_of_fmap_2 fst _ (u', f)).
Qed.

Lemma bind_singletons {A B} (h : A -> list B) (k : A -> B) (l : list A) :
  (forall x, x ∈ l -> h x = [k x]) -> l ≫= h = k <$> l.
Proof.
  induction l as [|x l IH]; intros Hh; [done|].
  rewrite bind_cons, fmap_cons, (Hh x) by left. cbn. f_equal.
  apply IH. intros y Hy. apply Hh. by right.
Qed.

(** X3: The join of the log with the first-activity table neither drops nor
    repeats an event: it has one row per event, in the order of the log,
    that carries the event and the first activity date of its user. *)
Theorem merge_keeps_every_event (data : DataFrame) :
  Forall2 (fun r t => exists f,
             t = (user_id r, date r, f) /\
             FirstActivity (rows data) (user_id r) f)
          (rows data) (merge (rows data) (first_activity data)).
Proof.
  unfold merge.
  rewrite (bind_singletons _ (fun r =>
    (user_id r, date r,
     series_min (date <$> filter (fun r' => user_id r' = user_id r) (rows data))))).
  - apply Forall2_fmap_r, Forall_Forall2_diag, Forall_forall.
    intros [u d] Hr. eexists. split; [reflexivity|].
    apply series_min_FirstActivity. by exists d.
  - intros [u d] Hr. apply join_first_activity; [apply NoDup_first_activity|].
    apply elem_of_first_activity, series_min_FirstActivity. by exists d.
Qed.
